(** * blink-lapse: the capture/authentication control flow of [capture.py]

    A shallow embedding of [src/capture.py] and the properties of its
    specification.  The program is a thin driver around the blinkpy client:
    every call into that client, every prompt and every timed wait is an
    interaction with the outside world.  The embedding is a state-and-exception
    monad over a [World] (logical clock, history of interactions, file system)
    in which the outside world is an oracle [Env] that answers each call as a
    function of the logical clock. *)

From Stdlib Require Import ZArith Ascii String List Lia.
From stdpp Require Import base option list gmap strings.

Local Open Scope string_scope.
Local Open Scope list_scope.
Local Open Scope Z_scope.

(** ** Python exceptions *)

(** The exceptions the program can meet.  [BlinkTwoFARequiredError] and
    [Exception_] are subclasses of [Exception]; [KeyboardInterrupt],
    [SystemExit] and [asyncio.CancelledError] derive from [BaseException]
    only.  [CancelledError true] is the cancellation of the main task by the
    SIGINT handler that [asyncio.run] installs, [CancelledError false] any
    other cancellation. *)
Inductive exn :=
| BlinkTwoFARequiredError
| Exception_ (name : string)
| KeyboardInterrupt
| SystemExit (code : Z)
| CancelledError (sigint : bool).

(** [isinstance(e, Exception)]: what an [except Exception] clause catches. *)
Definition is_Exception (e : exn) : bool :=
  match e with
  | BlinkTwoFARequiredError | Exception_ _ => true
  | KeyboardInterrupt | SystemExit _ | CancelledError _ => false
  end.

(** What a single call into the outside world gives back. *)
Inductive reply (A : Type) :=
| Ok (a : A)
| Err (e : exn).
Arguments Ok {A} a.
Arguments Err {A} e.

(** What a computation of the program ends with.  [OutOfFuel] only comes from
    the [while True] loop of [run_collector], which is unrolled a bounded
    number of times. *)
Inductive result (A : Type) :=
| Returns (a : A)
| Raises (e : exn)
| OutOfFuel.
Arguments Returns {A} a.
Arguments Raises {A} e.
Arguments OutOfFuel {A}.

(** ** Data *)

(** Login attributes: the JSON object kept in the credentials file. *)
Definition Creds := list (string * string).

(** [blinkpy.auth.Auth(login_data, no_prompt)]. *)
Record Auth := { data : Creds; no_prompt : bool }.

(** A camera handle, owned by the client library. *)
Inductive Camera := CameraHandle (id : nat).

(** The part of a [Blink] session object the program reads.  [cameras] is a
    dict: an association list in insertion (discovery) order. *)
Record Blink := {
  refresh_rate : Z;
  auth : Auth;
  available : bool;
  cameras : list (string * Camera)
}.

(** [Blink(refresh_rate=r)] *)
Definition Blink_new (r : Z) : Blink :=
  {| refresh_rate := r;
     auth := {| data := []; no_prompt := false |};
     available := false;
     cameras := [] |}.

(** [blink.auth = a] *)
Definition set_auth (blink : Blink) (a : Auth) : Blink :=
  {| refresh_rate := refresh_rate blink;
     auth := a;
     available := available blink;
     cameras := cameras blink |}.

(** ** Logging and the history of interactions *)

Inductive Level := DEBUG | INFO | WARNING | ERROR.

Inductive LogArg :=
| ArgS (s : string)
| ArgZ (z : Z)
| ArgL (l : list string).

(** One entry per logger call and per interaction with the outside world;
    an interaction is recorded with the reply it got. *)
Inductive Event :=
| Log (lvl : Level) (fmt : string) (args : list LogArg) (exc_info : option exn)
| Input (prompt : string) (r : reply string)
| Start (a : Auth) (r : reply bool)
| Send2FA (code : string) (r : reply bool)
| Save (path : string) (r : reply unit)
| Refresh (r : reply unit)
| SnapPicture (camera : Camera) (r : reply unit)
| Sleep (secs : Z) (r : reply unit)
| ImageToFile (camera : Camera) (path : string) (r : reply (option string))
| Mkdir (path : string).

(** ** The file system *)

Inductive Node :=
| Dir
| File (content : string).

(** ** The world *)

(** [clock] counts the interactions so far; [trace] is the history, most
    recent entry first; [fs] maps a path to what is there. *)
Record World := {
  clock : nat;
  trace : list Event;
  fs : gmap string Node;
  log_level : Level
}.

(** The history in chronological order. *)
Definition history (w : World) : list Event := rev (trace w).

(** ** The outside world *)

(** Every answer is a function of the logical clock at which the call is made,
    so one [Env] fixes one behaviour of the user, the clock, the operating
    system and the Blink service.  [str_strip] is the builtin [str.strip()];
    [image_left_on_error] is what a download that raises has left at its
    target by then, if anything. *)
Record Env := {
  environ : string -> option string;
  input : nat -> string -> reply string;
  str_strip : string -> string;
  json_loads : string -> reply Creds;
  json_dumps : Creds -> string;
  blink_start : nat -> Blink -> reply (bool * Blink);
  blink_send_2fa_code : nat -> Blink -> string -> reply (bool * Blink);
  blink_save : nat -> Blink -> string -> reply unit;
  blink_refresh : nat -> Blink -> reply unit;
  camera_snap_picture : nat -> Camera -> reply unit;
  camera_image_to_file : nat -> Camera -> string -> reply (option string);
  image_left_on_error : nat -> Camera -> string -> option string;
  asyncio_sleep : nat -> Z -> reply unit;
  datetime_now : nat -> string;
  dir_st_size : Z
}.

(** ** The monad *)

Definition M (A : Type) : Type := World -> result A * World.

Definition ret {A} (a : A) : M A := fun w => (Returns a, w).

Definition bind {A B} (m : M A) (k : A -> M B) : M B :=
  fun w =>
    match m w with
    | (Returns a, w') => k a w'
    | (Raises e, w') => (Raises e, w')
    | (OutOfFuel, w') => (OutOfFuel, w')
    end.

Definition raise {A} (e : exn) : M A := fun w => (Raises e, w).

Definition out_of_fuel {A} : M A := fun w => (OutOfFuel, w).

(** [try: body except ...: handler]; [handler e = None] when no clause
    matches [e]. *)
Definition try_except {A} (body : M A) (handler : exn -> option (M A)) : M A :=
  fun w =>
    match body w with
    | (Raises e, w') =>
        match handler e with
        | Some h => h w'
        | None => (Raises e, w')
        end
    | other => other
    end.

Notation "x <- c ;; k" := (bind c (fun x => k))
  (at level 100, c at next level, right associativity).
Notation "c ;;; k" := (bind c (fun _ => k))
  (at level 100, right associativity).

(** ** Primitive steps *)

(** Record a step that is not an interaction (a logger call, a [mkdir]). *)
Definition emit (e : Event) : M unit :=
  fun w =>
    (Returns tt,
     {| clock := clock w; trace := e :: trace w; fs := fs w;
        log_level := log_level w |}).

(** Record an interaction and advance the clock. *)
Definition tick (e : Event) (w : World) : World :=
  {| clock := S (clock w); trace := e :: trace w; fs := fs w;
     log_level := log_level w |}.

Definition of_reply {A} (r : reply A) : result A :=
  match r with
  | Ok a => Returns a
  | Err e => Raises e
  end.

Definition map_reply {A B} (f : A -> B) (r : reply A) : reply B :=
  match r with
  | Ok a => Ok (f a)
  | Err e => Err e
  end.

(** One interaction: ask the oracle at the current clock, record it. *)
Definition interact {A} (ask : nat -> reply A) (ev : reply A -> Event) : M A :=
  fun w => let r := ask (clock w) in (of_reply r, tick (ev r) w).

Definition write_fs (path : string) (n : Node) : M unit :=
  fun w =>
    (Returns tt,
     {| clock := clock w; trace := trace w; fs := <[path := n]> (fs w);
        log_level := log_level w |}).

Definition get_fs (path : string) : M (option Node) :=
  fun w => (Returns (fs w !! path), w).

Definition log (lvl : Level) (fmt : string) (args : list LogArg) : M unit :=
  emit (Log lvl fmt args None).

(** [log.exception(fmt, args)] inside a handler for [e]. *)
Definition log_exception (fmt : string) (args : list LogArg) (e : exn) : M unit :=
  emit (Log ERROR fmt args (Some e)).

(** [sys.exit(code)] *)
Definition sys_exit {A} (code : Z) : M A := raise (SystemExit code).

(** ** Strings and paths *)

(** [s.split("/")] *)
Fixpoint split_slash (s : string) : list string :=
  match s with
  | EmptyString => [EmptyString]
  | String c r =>
      if Ascii.eqb c "/" then EmptyString :: split_slash r
      else
        match split_slash r with
        | p :: ps => String c p :: ps
        | [] => [String c EmptyString]
        end
  end.

(** The root of a POSIX path: exactly two leading slashes are kept, any other
    number of them is one. *)
Definition root (s : string) : string :=
  match s with
  | String "/" (String "/" (String "/" _)) => "/"
  | String "/" (String "/" _) => "//"
  | String "/" _ => "/"
  | _ => ""
  end.

(** The components of a path below its root: empty ones and [.] are
    dropped, [..] is kept. *)
Definition parts (s : string) : list string :=
  List.filter (fun p => negb (String.eqb p "") && negb (String.eqb p "."))
              (split_slash s).

(** [str(path)] of the path with root [r] and components [ps]. *)
Definition render (r : string) (ps : list string) : string :=
  match r, ps with
  | EmptyString, [] => "."
  | _, _ => r +:+ String.concat "/" ps
  end.

(** [a / b] of pathlib, as [str]: a right operand with a root replaces the
    left one, otherwise its components are appended. *)
Definition joinpath (a b : string) : string :=
  match root b with
  | EmptyString => render (root a) (parts a ++ parts b)
  | r => render r (parts b)
  end.

(** The directories above the path [render r (above ++ below)] and below
    [render r above], outermost first. *)
Fixpoint ancestors (r : string) (above below : list string) : list string :=
  match below with
  | x :: ((_ :: _) as rest) =>
      render r (above ++ [x]) :: ancestors r (above ++ [x]) rest
  | _ => []
  end.

(** [path.parents], outermost first, without the root and the current
    directory. *)
Definition parents (path : string) : list string :=
  ancestors (root path) [] (parts path).

Arguments joinpath : simpl never.
Arguments parents : simpl never.

(** [path.exists()] *)
Definition Path_exists (path : string) : M bool :=
  n <- get_fs path ;; ret (bool_decide (is_Some n)).

Section Program.

Variable E : Env.

(** [path.stat().st_size]; [None] stands for a missing path. *)
Definition st_size (w : World) (path : string) : option Z :=
  match fs w !! path with
  | Some (File content) => Some (Z.of_nat (String.length content))
  | Some Dir => Some (dir_st_size E)
  | None => None
  end.

(** [path.read_text()] *)
Definition read_text (path : string) : M string :=
  n <- get_fs path ;;
  match n with
  | Some (File content) => ret content
  | Some Dir => raise (Exception_ "IsADirectoryError")
  | None => raise (Exception_ "FileNotFoundError")
  end.

(** The recursion of [path.mkdir(parents=True, ...)] through the missing
    directories above [path]: [dirs] are the ancestors, outermost first.  A
    regular file among them makes [os.mkdir] fail with ENOTDIR. *)
Fixpoint make_parents (dirs : list string) : M unit :=
  match dirs with
  | [] => ret tt
  | d :: rest =>
      n <- get_fs d ;;
      match n with
      | Some Dir => make_parents rest
      | Some (File _) => raise (Exception_ "NotADirectoryError")
      | None => write_fs d Dir ;;; make_parents rest
      end
  end.

(** [path.mkdir(parents=True, exist_ok=True)]: an existing directory is left
    alone, a regular file at [path] is a [FileExistsError], a regular file
    above it a [NotADirectoryError]; otherwise the missing directories are
    created from the outermost one down to [path]. *)
Definition mkdir (path : string) : M unit :=
  n <- get_fs path ;;
  match n with
  | Some (File _) => raise (Exception_ "FileExistsError")
  | Some Dir => emit (Mkdir path)
  | None =>
      make_parents (parents path) ;;;
      emit (Mkdir path) ;;;
      write_fs path Dir
  end.

(** [input(prompt)] *)
Definition py_input (prompt : string) : M string :=
  interact (fun t => input E t prompt) (Input prompt).

(** [os.environ.get(name) or input(prompt)] *)
Definition environ_or_input (name prompt : string) : M string :=
  match environ E name with
  | Some (String c r) => ret (String c r)
  | _ => py_input prompt
  end.

(** [await blink.start()]: the started flag and the session as the client
    left it. *)
Definition start (blink : Blink) : M (bool * Blink) :=
  interact (fun t => blink_start E t blink)
           (fun r => Start (auth blink) (map_reply fst r)).

(** [await blink.send_2fa_code(code)] *)
Definition send_2fa_code (blink : Blink) (code : string) : M (bool * Blink) :=
  interact (fun t => blink_send_2fa_code E t blink code)
           (fun r => Send2FA code (map_reply fst r)).

(** [await blink.save(path)]: the client dumps the login attributes of the
    session as JSON. *)
Definition save (blink : Blink) (path : string) : M unit :=
  interact (fun t => blink_save E t blink path) (Save path) ;;;
  write_fs path (File (json_dumps E (data (auth blink)))).

(** [await blink.refresh(force=True)] *)
Definition refresh (blink : Blink) : M unit :=
  interact (fun t => blink_refresh E t blink) Refresh.

(** [await camera.snap_picture()] *)
Definition snap_picture (camera : Camera) : M unit :=
  interact (fun t => camera_snap_picture E t camera) (SnapPicture camera).

(** What a download leaves at [path]: [Some content] is a file written. *)
Definition leave (path : string) (written : option string) : M unit :=
  match written with
  | Some content => write_fs path (File content)
  | None => ret tt
  end.

(** [await camera.image_to_file(path)]: the client writes the image when the
    service hands one out, and only logs otherwise.  A call that raises may
    have written to [path] before it did. *)
Definition image_to_file (camera : Camera) (path : string) : M unit :=
  fun w =>
    let r := camera_image_to_file E (clock w) camera path in
    let w' := tick (ImageToFile camera path r) w in
    match r with
    | Ok written => leave path written w'
    | Err e =>
        (leave path (image_left_on_error E (clock w) camera path) ;;;
         raise e) w'
    end.

(** [await asyncio.sleep(secs)] *)
Definition sleep (secs : Z) : M unit :=
  interact (fun t => asyncio_sleep E t secs) (Sleep secs).

(** [datetime.now().strftime("%Y%m%d_%H%M%S")] *)
Definition now_strftime : M string :=
  fun w => (Returns (datetime_now E (clock w)), w).

(** ** The program *)

Definition SNAP_SETTLE_DELAY : Z := 10.
Definition DEFAULT_INTERVAL : Z := 600.

Definition _do_2fa (blink : Blink) : M Blink :=
  raw <- py_input "Enter the 2FA pin sent to your registered device/email: " ;;
  let code := str_strip E raw in
  ok <- send_2fa_code blink code ;;
  if negb (fst ok) then
    log ERROR "2FA verification failed." [] ;;;
    sys_exit 1
  else ret (snd ok).

(** The first half of [authenticate]: the [if credentials_file.exists():]
    block.  [Some blink] is a [return blink] from inside the block, [None] is
    falling out of it. *)
Definition saved_login (credentials_file : string) : M (option Blink) :=
  let blink := Blink_new 30 in
  present <- Path_exists credentials_file ;;
  if present then
    log INFO "Loading saved credentials from %s" [ArgS credentials_file] ;;;
    text <- read_text credentials_file ;;
    creds <- (fun w => (of_reply (json_loads E text), w)) ;;
    let blink := set_auth blink {| data := creds; no_prompt := true |} in
    try_except
      (started <- start blink ;;
       if fst started then
         save (snd started) credentials_file ;;;
         ret (Some (snd started))
       else
         log WARNING "Saved credentials failed, falling back to login." [] ;;;
         ret None)
      (fun e =>
         match e with
         | BlinkTwoFARequiredError =>
             Some (blink' <- _do_2fa blink ;;
                   save blink' credentials_file ;;;
                   ret (Some blink'))
         | _ => None
         end)
  else ret None.

(** The second half of [authenticate], below [# --- Fresh login ---]. *)
Definition fresh_login (credentials_file : string) : M Blink :=
  username <- environ_or_input "BLINK_USERNAME" "Blink username (email): " ;;
  password <- environ_or_input "BLINK_PASSWORD" "Blink password: " ;;
  let blink :=
    set_auth (Blink_new 30)
      {| data := [("username", username); ("password", password)];
         no_prompt := false |} in
  blink' <- try_except
              (started <- start blink ;; ret (snd started))
              (fun e =>
                 match e with
                 | BlinkTwoFARequiredError => Some (_do_2fa blink)
                 | _ => None
                 end) ;;
  save blink' credentials_file ;;;
  log INFO "Credentials saved to %s" [ArgS credentials_file] ;;;
  ret blink'.

Definition authenticate (credentials_file : string) : M Blink :=
  saved <- saved_login credentials_file ;;
  match saved with
  | Some blink => ret blink
  | None => fresh_login credentials_file
  end.

(** [filename.exists() and filename.stat().st_size > 0] *)
Definition valid_frame (w : World) (filename : string) : bool :=
  match st_size w filename with
  | Some size => bool_decide (0 < size)
  | None => false
  end.

Definition capture_frame (blink : Blink) (camera : Camera)
    (output_dir camera_name : string) : M bool :=
  timestamp <- now_strftime ;;
  let filename := joinpath output_dir (timestamp +:+ ".jpg") in
  log INFO "Triggering snapshot on '%s'..." [ArgS camera_name] ;;;
  snap_picture camera ;;;
  log DEBUG "Waiting %ds for '%s' to upload..."
      [ArgZ SNAP_SETTLE_DELAY; ArgS camera_name] ;;;
  sleep SNAP_SETTLE_DELAY ;;;
  refresh blink ;;;
  image_to_file camera filename ;;;
  fun w =>
    if valid_frame w filename then
      (log INFO "Saved %s (%d bytes)"
           [ArgS filename; ArgZ (default 0 (st_size w filename))] ;;;
       ret true) w
    else
      (log WARNING "Frame capture failed for '%s' â€” file missing or empty."
           [ArgS camera_name] ;;;
       ret false) w.

(** [{k: v for k, v in cameras.items() if k in camera_filter}] *)
Definition filter_cameras (camera_filter : list string)
    (cams : list (string * Camera)) : list (string * Camera) :=
  filter (fun kv => kv.1 ∈ camera_filter) cams.

(** The truth value of [camera_filter]: [None] and [[]] are false. *)
Definition filter_given (camera_filter : option (list string)) : bool :=
  match camera_filter with
  | Some (_ :: _) => true
  | _ => false
  end.

(** The value of the variable [cameras] after the [if camera_filter:] block
    of [run_collector]. *)
Definition resolve_cameras (camera_filter : option (list string))
    (cams : list (string * Camera)) : list (string * Camera) :=
  match camera_filter with
  | Some (n :: ns) => filter_cameras (n :: ns) cams
  | _ => cams
  end.

(** [for name in cameras: (frames_dir / name).mkdir(...)] *)
Fixpoint make_dirs (frames_dir : string) (cams : list (string * Camera))
    : M unit :=
  match cams with
  | [] => ret tt
  | (name, _) :: rest =>
      mkdir (joinpath frames_dir name) ;;;
      make_dirs frames_dir rest
  end.

(** The [for name, camera in cameras.items():] loop of one cycle, with its
    per-camera [try ... except Exception]. *)
Fixpoint capture_cycle (blink : Blink) (frames_dir : string)
    (cams : list (string * Camera)) : M unit :=
  match cams with
  | [] => ret tt
  | (name, camera) :: rest =>
      try_except
        (capture_frame blink camera (joinpath frames_dir name) name ;;;
         ret tt)
        (fun e =>
           if is_Exception e then
             Some (log_exception "Unexpected error capturing from '%s'"
                                 [ArgS name] e)
           else None) ;;;
      capture_cycle blink frames_dir rest
  end.

(** The [while True:] loop, unrolled at most [fuel] times. *)
Fixpoint collector_loop (fuel : nat) (blink : Blink) (interval : Z)
    (frames_dir : string) (cams : list (string * Camera)) (once : bool)
    : M unit :=
  match fuel with
  | O => out_of_fuel
  | S fuel' =>
      refresh blink ;;;
      capture_cycle blink frames_dir cams ;;;
      if once then ret tt
      else
        log INFO "Next capture in %ds. Press Ctrl+C to stop." [ArgZ interval] ;;;
        sleep interval ;;;
        collector_loop fuel' blink interval frames_dir cams once
  end.

Definition run_collector (fuel : nat) (interval : Z)
    (camera_filter : option (list string))
    (frames_dir credentials_file : string) (once : bool) : M unit :=
  blink <- authenticate credentials_file ;;
  if negb (available blink) then
    log ERROR "Blink system not available after authentication." []
  else
    match cameras blink with
    | [] => log ERROR "No cameras found in your Blink account." []
    | _ :: _ =>
        log INFO "Cameras found: %s" [ArgL (cameras blink).*1] ;;;
        let cams := resolve_cameras camera_filter (cameras blink) in
        match filter_given camera_filter, cams with
        | true, [] =>
            log ERROR "None of the specified cameras were found. Available: %s"
                [ArgL (cameras blink).*1]
        | _, _ =>
            make_dirs frames_dir cams ;;;
            log INFO "Starting capture: %d camera(s), interval=%ds%s"
                [ArgZ (Z.of_nat (length cams)); ArgZ interval;
                 ArgS (if once then " [single shot]" else "")] ;;;
            try_except
              (collector_loop fuel blink interval frames_dir cams once)
              (fun e =>
                 match e with
                 | KeyboardInterrupt => Some (log INFO "Stopped by user." [])
                 | _ => None
                 end)
        end
    end.

(** The parsed command line. *)
Record Args := {
  arg_interval : Z;
  arg_cameras : option (list string);
  arg_frames_dir : string;
  arg_credentials : string;
  arg_once : bool;
  arg_verbose : bool
}.

Definition set_level (lvl : Level) : M unit :=
  fun w =>
    (Returns tt,
     {| clock := clock w; trace := trace w; fs := fs w; log_level := lvl |}).

(** [asyncio.run(coro)]: the outcome of the coroutine is the outcome of the
    call, except that a main task cancelled by the SIGINT handler of the
    runner makes the call raise [KeyboardInterrupt]. *)
Definition asyncio_run {A} (coro : M A) : M A :=
  fun w =>
    match coro w with
    | (Raises (CancelledError true), w') => (Raises KeyboardInterrupt, w')
    | other => other
    end.

(** [main], from [args = parser.parse_args()] on. *)
Definition main (fuel : nat) (args : Args) : M unit :=
  (if arg_verbose args then set_level DEBUG else ret tt) ;;;
  asyncio_run
    (run_collector fuel (arg_interval args) (arg_cameras args)
       (arg_frames_dir args) (arg_credentials args) (arg_once args)).

End Program.

(** The exit status of the interpreter for the way [main] ended: 0 after a
    normal return, the low byte of the code of a [SystemExit], 130 for a
    [KeyboardInterrupt] nobody caught, 1 for any other uncaught exception. *)
Definition exit_status (r : result unit) : option Z :=
  match r with
  | Returns _ => Some 0
  | Raises (SystemExit code) => Some (Z.land code 255)
  | Raises KeyboardInterrupt => Some 130
  | Raises _ => Some 1
  | OutOfFuel => None
  end.

(** ** What the properties speak about *)

Section Observations.

Variable E : Env.


(** The path [capture_frame] computes when it is entered in world [w]. *)
Definition frame_path (output_dir : string) (w : World) : string :=
  joinpath output_dir (datetime_now E (clock w) +:+ ".jpg").




(** The entry [log.exception] leaves in the history. *)
Definition capture_error (camera_name : string) (e : exn) : Event :=
  Log ERROR "Unexpected error capturing from '%s'" [ArgS camera_name] (Some e).

Definition logged (ev : Event) (w : World) : World :=
  {| clock := clock w; trace := ev :: trace w; fs := fs w;
     log_level := log_level w |}.

(** The world in which the fresh login begins after the stored credentials
    [creds] were tried in world [w] and session start reported failure. *)
Definition after_refused_reuse (credentials_file : string) (creds : Creds)
    (w : World) : World :=
  {| clock := S (clock w);
     trace :=
       [Log WARNING "Saved credentials failed, falling back to login." [] None;
        Start {| data := creds; no_prompt := true |} (Ok false);
        Log INFO "Loading saved credentials from %s" [ArgS credentials_file]
            None]
       ++ trace w;
     fs := fs w;
     log_level := log_level w |}.


(** Steps that belong to capturing: preparing a directory, refreshing,
    triggering, waiting, downloading. *)
Definition is_capture_step (ev : Event) : bool :=
  match ev with
  | SnapPicture _ _ | ImageToFile _ _ _ | Mkdir _ | Refresh _ | Sleep _ _ => true
  | _ => false
  end.

(** A second-factor code was submitted. *)
Definition is_2fa_submission (ev : Event) : bool :=
  match ev with
  | Send2FA _ _ => true
  | _ => false
  end.

(** A second-factor code was submitted and the service rejected it. *)
Definition is_2fa_rejection (ev : Event) : bool :=
  match ev with
  | Send2FA _ (Ok false) => true
  | _ => false
  end.

Definition rejection_logged : Event :=
  Log ERROR "2FA verification failed." [] None.


(** How many entries of a history satisfy [p]. *)
Definition count_events (p : Event -> bool) (evs : list Event) : nat :=
  length (List.filter p evs).


(** Steps of the login interface: prompts, session start, second factor,
    saving the credentials. *)
Definition is_login_step (ev : Event) : bool :=
  match ev with
  | Input _ _ | Start _ _ | Send2FA _ _ | Save _ _ => true
  | _ => false
  end.

(** From [w] to [w'] the history only grew, by entries that satisfy [P]. *)
Definition adds (P : Event -> bool) (w w' : World) : Prop :=
  ∃ evs, trace w' = evs ++ trace w ∧ forallb P evs = true.


(** From [w] to [w'] nothing of the login interface happened. *)
Definition quiet : World -> World -> Prop :=
  adds (fun ev => negb (is_login_step ev)).


(** The user interrupt under [asyncio.run]: SIGINT cancels the main task, so
    the [await] the coroutine is suspended in raises [CancelledError].
    [interrupt_at t E] behaves as [E], except that the awaited call made at
    clock [t], whichever it is, is cancelled that way. *)
Definition interrupt_at (t : nat) (E : Env) : Env :=
  let cut {A} (n : nat) (r : reply A) : reply A :=
    if (n =? t)%nat then Err (CancelledError true) else r in
  {| environ := environ E;
     input := input E;
     str_strip := str_strip E;
     json_loads := json_loads E;
     json_dumps := json_dumps E;
     blink_start := fun n b => cut n (blink_start E n b);
     blink_send_2fa_code := fun n b code => cut n (blink_send_2fa_code E n b code);
     blink_save := fun n b path => cut n (blink_save E n b path);
     blink_refresh := fun n b => cut n (blink_refresh E n b);
     camera_snap_picture := fun n c => cut n (camera_snap_picture E n c);
     camera_image_to_file :=
       fun n c path => cut n (camera_image_to_file E n c path);
     image_left_on_error := image_left_on_error E;
     asyncio_sleep := fun n secs => cut n (asyncio_sleep E n secs);
     datetime_now := datetime_now E;
     dir_st_size := dir_st_size E |}.

(** The reply of an awaited call that SIGINT cancelled. *)
Definition sigint {A} (r : reply A) : bool :=
  match r with
  | Err (CancelledError true) => true
  | _ => false
  end.

(** An awaited call of the program that was cancelled by SIGINT.  [input] is
    not awaited: it blocks the event loop, and a signal that arrives
    meanwhile cancels the next awaited call. *)
Definition is_cancelled (ev : Event) : bool :=
  match ev with
  | Start _ r | Send2FA _ r => sigint r
  | Save _ r | Refresh r | SnapPicture _ r | Sleep _ r => sigint r
  | ImageToFile _ _ r => sigint r
  | _ => false
  end.

(** The line [log.info("Stopped by user.")]. *)
Definition is_stop_line (ev : Event) : bool :=
  match ev with
  | Log INFO fmt [] None => String.eqb fmt "Stopped by user."
  | _ => false
  end.

(** A run from [w] to [w'] that ended with [r] and never says it was stopped
    by the user, in which a cancellation, if there is one, is the last thing
    that happened and is what the run ended with. *)
Definition unhandled {A} (w : World) (r : result A) (w' : World) : Prop :=
  ∃ evs,
    trace w' = evs ++ trace w ∧
    forallb (fun ev => negb (is_stop_line ev)) evs = true ∧
    (forallb (fun ev => negb (is_cancelled ev)) evs = true ∨
     r = Raises (CancelledError true) ∧
     ∃ ev rest,
       evs = ev :: rest ∧ is_cancelled ev = true ∧
       forallb (fun ev => negb (is_cancelled ev)) rest = true).

(** A computation every run of which is of that kind. *)
Definition passes_cancellation {A} (m : M A) : Prop :=
  ∀ w r w', m w = (r, w') → unhandled w r w'.

(** A run from [w] to [w'] in which a cancellation, if there is one, is the
    last thing that happened and is what the run ended with, without the
    line that says the run was stopped by the user. *)
Definition cancelled_last {A} (w : World) (r : result A) (w' : World) : Prop :=
  ∃ evs,
    trace w' = evs ++ trace w ∧
    (existsb is_cancelled evs = true →
     r = Raises (CancelledError true) ∧
     forallb (fun ev => negb (is_stop_line ev)) evs = true ∧
     ∃ ev rest, evs = ev :: rest ∧ is_cancelled ev = true).

Definition ends_on_cancellation {A} (m : M A) : Prop :=
  ∀ w r w', m w = (r, w') → cancelled_last w r w'.

Definition stopped_by_user : Event := Log INFO "Stopped by user." [] None.

(** The world in which [main] calls [run_collector]. *)
Definition entry (args : Args) (w : World) : World :=
  if arg_verbose args then
    {| clock := clock w; trace := trace w; fs := fs w; log_level := DEBUG |}
  else w.

Definition is_refresh (ev : Event) : bool :=
  match ev with
  | Refresh _ => true
  | _ => false
  end.




(** The cameras whose snapshot was requested, one per [SnapPicture] entry, in
    the order of the list. *)
Definition snapshots (evs : list Event) : list Camera :=
  omap (fun ev => match ev with SnapPicture c _ => Some c | _ => None end) evs.

(** The prompt of [_do_2fa]. *)
Definition pin_prompt : string :=
  "Enter the 2FA pin sent to your registered device/email: ".

(** A prompt for the user name or the password. *)
Definition is_login_prompt (ev : Event) : bool :=
  match ev with
  | Input prompt _ => negb (String.eqb prompt pin_prompt)
  | _ => false
  end.

Definition is_log (ev : Event) : bool :=
  match ev with
  | Log _ _ _ _ => true
  | _ => false
  end.

(** The same world, with the logger at level [lvl]. *)
Definition relevel (lvl : Level) (w : World) : World :=
  {| clock := clock w; trace := trace w; fs := fs w; log_level := lvl |}.

(** A computation that neither reads nor keeps the level of the logger. *)
Definition level_blind {A} (m : M A) : Prop :=
  ∀ lvl w, m (relevel lvl w) = ((m w).1, relevel lvl (m w).2).


End Observations.

(** ** Concrete worlds, used to run the program *)

Module Sample.

Definition front : Camera := CameraHandle 0.
Definition back : Camera := CameraHandle 1.

Definition session (a : Auth) : Blink :=
  {| refresh_rate := 30;
     auth := {| data := ("token", "t1") :: data a; no_prompt := no_prompt a |};
     available := true;
     cameras := [("front", front); ("back", back)] |}.

(** [str.strip()] on ASCII text. *)
Definition is_space (c : ascii) : bool :=
  let n := nat_of_ascii c in
  ((9 <=? n) && (n <=? 13) || (28 <=? n) && (n <=? 32))%nat.

Fixpoint lstrip (s : string) : string :=
  match s with
  | String c r => if is_space c then lstrip r else s
  | EmptyString => EmptyString
  end.

Fixpoint rstrip (s : string) : string :=
  match s with
  | String c r =>
      match rstrip r with
      | EmptyString => if is_space c then EmptyString else String c EmptyString
      | r' => String c r'
      end
  | EmptyString => EmptyString
  end.

Definition strip (s : string) : string := rstrip (lstrip s).

Definition dumps (c : Creds) : string :=
  String.concat "," (map (fun kv => kv.1 +:+ "=" +:+ kv.2) c).

(** A service where everything works: credentials come from the process
    environment, every call succeeds and every download yields image data. *)
Definition env : Env :=
  {| environ := fun name =>
       if String.eqb name "BLINK_USERNAME" then Some "me@example.org"
       else if String.eqb name "BLINK_PASSWORD" then Some "secret"
       else None;
     input := fun _ _ => Ok " 123456 ";
     str_strip := strip;
     json_loads := fun text => Ok [("blob", text)];
     json_dumps := dumps;
     blink_start := fun _ b => Ok (true, session (auth b));
     blink_send_2fa_code := fun _ b _ => Ok (true, session (auth b));
     blink_save := fun _ _ _ => Ok tt;
     blink_refresh := fun _ _ => Ok tt;
     camera_snap_picture := fun _ _ => Ok tt;
     camera_image_to_file := fun _ _ _ => Ok (Some "JFIF");
     image_left_on_error := fun _ _ _ => None;
     asyncio_sleep := fun _ _ => Ok tt;
     datetime_now := fun t =>
       if (t <? 6)%nat then "20240101_120000" else "20240101_120010";
     dir_st_size := 4096 |}.

(** An empty disk, nothing has happened yet. *)
Definition world0 : World :=
  {| clock := 0; trace := []; fs := ∅; log_level := INFO |}.

(** A disk that holds a credentials file from an earlier run. *)
Definition world_saved : World :=
  {| clock := 0; trace := [];
     fs := {[ ".credentials.json" := File "token=old" ]};
     log_level := INFO |}.

(** Replace single answers of an environment. *)
Definition with_snap_picture (f : nat -> Camera -> reply unit) (E : Env) : Env :=
  {| environ := environ E; input := input E; str_strip := str_strip E;
     json_loads := json_loads E;
     json_dumps := json_dumps E; blink_start := blink_start E;
     blink_send_2fa_code := blink_send_2fa_code E; blink_save := blink_save E;
     blink_refresh := blink_refresh E; camera_snap_picture := f;
     camera_image_to_file := camera_image_to_file E;
     image_left_on_error := image_left_on_error E;
     asyncio_sleep := asyncio_sleep E; datetime_now := datetime_now E;
     dir_st_size := dir_st_size E |}.


Definition with_start (f : nat -> Blink -> reply (bool * Blink)) (E : Env)
    : Env :=
  {| environ := environ E; input := input E; str_strip := str_strip E;
     json_loads := json_loads E;
     json_dumps := json_dumps E; blink_start := f;
     blink_send_2fa_code := blink_send_2fa_code E; blink_save := blink_save E;
     blink_refresh := blink_refresh E;
     camera_snap_picture := camera_snap_picture E;
     camera_image_to_file := camera_image_to_file E;
     image_left_on_error := image_left_on_error E;
     asyncio_sleep := asyncio_sleep E; datetime_now := datetime_now E;
     dir_st_size := dir_st_size E |}.

Definition with_send_2fa_code
    (f : nat -> Blink -> string -> reply (bool * Blink)) (E : Env) : Env :=
  {| environ := environ E; input := input E; str_strip := str_strip E;
     json_loads := json_loads E;
     json_dumps := json_dumps E; blink_start := blink_start E;
     blink_send_2fa_code := f; blink_save := blink_save E;
     blink_refresh := blink_refresh E;
     camera_snap_picture := camera_snap_picture E;
     camera_image_to_file := camera_image_to_file E;
     image_left_on_error := image_left_on_error E;
     asyncio_sleep := asyncio_sleep E; datetime_now := datetime_now E;
     dir_st_size := dir_st_size E |}.


(** The snapshot request of the front camera times out. *)
Definition env_snap_timeout : Env :=
  with_snap_picture
    (fun _ c => match c with
                | CameraHandle 0 => Err (Exception_ "TimeoutError")
                | _ => Ok tt
                end) env.

(** The snapshot request of the front camera raises [KeyboardInterrupt]. *)
Definition env_snap_interrupt : Env :=
  with_snap_picture
    (fun _ c => match c with
                | CameraHandle 0 => Err KeyboardInterrupt
                | _ => Ok tt
                end) env.


(** A session as [authenticate] hands it to the capture loop. *)
Definition blink0 : Blink := session {| data := []; no_prompt := false |}.


(** The network is down: session start raises something that is not the
    second-factor condition. *)
Definition env_start_raises : Env :=
  with_start (fun _ _ => Err (Exception_ "ClientConnectorError")) env.

(** The service refuses the login: session start returns [False]. *)
Definition env_start_refused : Env :=
  with_start (fun _ b => Ok (false, b)) env.


(** The stored session needs a second factor, and the code the user types
    is rejected. *)
Definition env_2fa_rejected : Env :=
  with_send_2fa_code (fun _ b _ => Ok (false, b))
    (with_start (fun _ _ => Err BlinkTwoFARequiredError) env).

(** The account is reachable but reports itself unavailable. *)
Definition env_unavailable : Env :=
  with_start
    (fun _ b =>
       Ok (true,
           {| refresh_rate := 30; auth := auth b; available := false;
              cameras := [("front", front); ("back", back)] |})) env.


(** The stored session needs a second factor, and the code is accepted. *)
Definition env_2fa_accepted : Env :=
  with_start (fun _ _ => Err BlinkTwoFARequiredError) env.

(** A credentials file that does not hold JSON. *)
Definition env_bad_json : Env :=
  {| environ := environ env; input := input env; str_strip := str_strip env;
     json_loads := fun _ => Err (Exception_ "JSONDecodeError");
     json_dumps := json_dumps env; blink_start := blink_start env;
     blink_send_2fa_code := blink_send_2fa_code env;
     blink_save := blink_save env; blink_refresh := blink_refresh env;
     camera_snap_picture := camera_snap_picture env;
     camera_image_to_file := camera_image_to_file env;
     image_left_on_error := image_left_on_error env;
     asyncio_sleep := asyncio_sleep env; datetime_now := datetime_now env;
     dir_st_size := dir_st_size env |}.

(** A disk on which a regular file sits where the directory of the back
    camera should go; the directory of the front camera is there already and
    holds an earlier frame. *)
Definition world_blocked : World :=
  {| clock := 0; trace := [];
     fs := {[ "frames" := Dir;
              "frames/front" := Dir;
              "frames/front/20231231_235959.jpg" := File "JFIF";
              "frames/back" := File "not a directory" ]};
     log_level := INFO |}.

(** A disk on which both output directories exist already. *)
Definition world_prepared : World :=
  {| clock := 0; trace := [];
     fs := {[ "frames" := Dir;
              "frames/front" := Dir;
              "frames/front/20231231_235959.jpg" := File "JFIF";
              "frames/back" := Dir ]};
     log_level := INFO |}.


End Sample.

(** * Properties *)

(** ** Unfolding the monad *)

Ltac unfold_steps :=
  unfold log, log_exception, sys_exit, py_input, start, send_2fa_code, save,
    refresh, snap_picture, image_to_file, leave, sleep, now_strftime,
    read_text, mkdir, Path_exists, get_fs, write_fs, emit, interact, raise, ret,
    out_of_fuel, tick in *.

Ltac run :=
  unfold bind, try_except in *; unfold_steps; unfold bind in *; cbn in *.

(** ** Camera-set resolution (C7) *)

Section Resolution.

Implicit Types (cams : list (string * Camera)) (names : list string).

Lemma elem_of_filter_cameras names cams kv :
  kv ∈ filter_cameras names cams ↔ kv ∈ cams ∧ kv.1 ∈ names.
Proof. unfold filter_cameras. rewrite list_elem_of_filter. tauto. Qed.

Lemma filter_cameras_sublist names cams :
  sublist (filter_cameras names cams) cams.
Proof. apply sublist_filter. Qed.

Lemma resolve_cameras_Some names cams :
  resolve_cameras (Some names) cams =
  match names with [] => cams | _ :: _ => filter_cameras names cams end.
Proof. by destruct names. Qed.

End Resolution.

(** C7.  A filter that shares a name with the discovered cameras resolves to
    exactly the discovered cameras whose name is in the filter (nothing else,
    nothing missing, so the result is not empty), listed in discovery order:
    the result is the discovered list with the other entries struck out, and
    it keeps the names distinct. *)
Theorem resolve_cameras_intersection
    (names : list string) (cams : list (string * Camera)) :
  (∃ name, name ∈ names ∧ name ∈ cams.*1) →
  let resolved := resolve_cameras (Some names) cams in
  filter_given (Some names) = true ∧
  resolved ≠ [] ∧
  (∀ kv, kv ∈ resolved ↔ kv ∈ cams ∧ kv.1 ∈ names) ∧
  sublist resolved cams ∧
  resolved.*1 = filter (.∈ names) cams.*1 ∧
  (NoDup cams.*1 → NoDup resolved.*1).
Proof.
  intros (name & Hin & Hcam) resolved. subst resolved.
  rewrite resolve_cameras_Some.
  destruct names as [|n ns]; [by apply elem_of_nil in Hin|].
  split; [done|].
  apply list_elem_of_fmap in Hcam as (kv & -> & Hkv).
  assert (Hmem : kv ∈ filter_cameras (n :: ns) cams)
    by (by apply elem_of_filter_cameras).
  split; [intros Heq; rewrite Heq in Hmem; by apply elem_of_nil in Hmem|].
  split; [intros kv'; apply elem_of_filter_cameras|].
  split; [apply filter_cameras_sublist|].
  split.
  - unfold filter_cameras. clear.
    induction cams as [|[k v] cams IH]; [done|].
    rewrite fmap_cons. cbn [fst].
    rewrite !filter_cons. cbn [fst].
    destruct (decide (k ∈ n :: ns)); [rewrite fmap_cons|]; by rewrite IH.
  - intros Hnd. apply (sublist_NoDup _ (cams.*1)); [exact Hnd|].
    apply fmap_sublist, filter_cameras_sublist.
Qed.

Lemma resolve_cameras_intersection_witness :
  let resolved :=
    resolve_cameras (Some ["back"; "garage"])
      [("front", Sample.front); ("back", Sample.back)] in
  resolved = [("back", Sample.back)] ∧
  sublist resolved [("front", Sample.front); ("back", Sample.back)].
Proof.
  pose proof (resolve_cameras_intersection ["back"; "garage"]
                [("front", Sample.front); ("back", Sample.back)]) as H.
  split; [vm_compute; reflexivity|].
  apply H. exists "back". split; [|cbn]; repeat constructor.
Defined.

(** ** The Frame Capture Step *)

Section Capture.

Variable E : Env.




(** [capture_frame] has no loop: it never runs out of fuel. *)
Lemma capture_frame_terminates blink camera output_dir name w :
  (capture_frame E blink camera output_dir name w).1 ≠ OutOfFuel.
Proof.
  unfold capture_frame. run.
  repeat match goal with
  | |- context [of_reply ?r] => destruct r as [[]|]; cbn
  | |- context [match ?r with Ok _ => _ | Err _ => _ end] => destruct r; cbn
  | |- context [valid_frame E ?x ?y] => destruct (valid_frame E x y); cbn
  | |- context [match ?o with Some _ => _ | None => _ end] => destruct o; cbn
  end; done.
Qed.

(** *** The per-camera boundary in the cycle *)


Lemma capture_cycle_caught blink frames_dir name camera rest w e w1 :
  capture_frame E blink camera (joinpath frames_dir name) name w
    = (Raises e, w1) →
  is_Exception e = true →
  capture_cycle E blink frames_dir ((name, camera) :: rest) w =
  capture_cycle E blink frames_dir rest (logged (capture_error name e) w1).
Proof.
  intros H He. cbn. unfold bind, try_except. rewrite H, He. reflexivity.
Qed.

Lemma capture_cycle_escaped blink frames_dir name camera rest w e w1 :
  capture_frame E blink camera (joinpath frames_dir name) name w
    = (Raises e, w1) →
  is_Exception e = false →
  capture_cycle E blink frames_dir ((name, camera) :: rest) w = (Raises e, w1).
Proof.
  intros H He. cbn. unfold bind, try_except. rewrite H, He. reflexivity.
Qed.

End Capture.




(** ** The per-camera boundary of the cycle *)

Section Cycle.

Variable E : Env.

Lemma capture_cycle_app blink frames_dir cams1 cams2 w :
  capture_cycle E blink frames_dir (cams1 ++ cams2) w =
  (capture_cycle E blink frames_dir cams1 ;;;
   capture_cycle E blink frames_dir cams2) w.
Proof.
  revert w. induction cams1 as [|[name camera] cams1 IH]; intros w; [done|].
  cbn. unfold bind at 1 3 4.
  destruct (try_except _ _ w) as [[[]|e|] w1]; [apply IH|done|done].
Qed.


End Cycle.

(** C10.  The per-camera handler of the cycle is an [except Exception]: when
    the capture of a camera raises an exception of class [Exception] it is
    logged with the camera name and the cycle goes on with the next camera;
    when it raises [KeyboardInterrupt] or [SystemExit], the cycle stops there
    with that very exception, in the world the capture left: no per-camera
    error is logged and no later camera is attempted. *)
Theorem per_camera_boundary
    E blink frames_dir attempted name camera rest w0 w e w1 :
  capture_cycle E blink frames_dir attempted w0 = (Returns tt, w) →
  capture_frame E blink camera (joinpath frames_dir name) name w
    = (Raises e, w1) →
  (is_Exception e = true →
   capture_cycle E blink frames_dir (attempted ++ (name, camera) :: rest) w0 =
   capture_cycle E blink frames_dir rest (logged (capture_error name e) w1)) ∧
  (e = KeyboardInterrupt ∨ (∃ code, e = SystemExit code) →
   capture_cycle E blink frames_dir (attempted ++ (name, camera) :: rest) w0 =
   (Raises e, w1)).
Proof.
  intros Hdone Hraise. split.
  - intros He. rewrite capture_cycle_app. unfold bind at 1. rewrite Hdone.
    by apply capture_cycle_caught.
  - intros He. rewrite capture_cycle_app. unfold bind at 1. rewrite Hdone.
    apply capture_cycle_escaped; [done|].
    by destruct He as [-> | [code ->]].
Qed.

Lemma per_camera_boundary_witness :
  ∃ w1,
    capture_cycle Sample.env_snap_interrupt Sample.blink0 "frames"
      [("back", Sample.back); ("front", Sample.front); ("yard", Sample.back)]
      Sample.world0
    = (Raises KeyboardInterrupt, w1) ∧
    head (trace w1) = Some (SnapPicture Sample.front (Err KeyboardInterrupt)).
Proof.
  eexists. split.
  - eapply (per_camera_boundary Sample.env_snap_interrupt Sample.blink0 "frames"
             [("back", Sample.back)] "front" Sample.front
             [("yard", Sample.back)] Sample.world0 _ KeyboardInterrupt _).
    + vm_compute. reflexivity.
    + vm_compute. reflexivity.
    + left. reflexivity.
  - reflexivity.
Defined.

(** ** Who catches what a capture raises (C2) *)



(** ** What authentication does and does not do *)

(** The entries a run added to the history [t], read off the new history. *)
Ltac added t' t :=
  lazymatch t' with
  | t => constr:(@nil Event)
  | ?e :: ?r => let p := added r t in constr:(e :: p)
  end.

Ltac exists_added :=
  lazymatch goal with
  | |- ∃ evs, ?t' = evs ++ ?t ∧ _ =>
      let p := added t' t in exists p; split; [reflexivity|]
  end.

(** One case split on whatever the run is waiting for: the reply of the
    outside world, the class of a raised exception, a flag, the file system. *)
Ltac split_reply :=
  match goal with
  | |- context [of_reply ?r] =>
      let a := fresh "a" in
      destruct r as [a|?];
      [lazymatch type of a with
       | (bool * _)%type => destruct a as [[|] ?]
       | unit => destruct a
       | _ => idtac
       end|]; cbn
  | |- context [match ?r with Ok _ => _ | Err _ => _ end] =>
      lazymatch r with
      | context [match _ with _ => _ end] => fail
      | _ => destruct r as [?|?]; cbn
      end
  | |- context [match ?e with BlinkTwoFARequiredError => _ | _ => _ end] =>
      is_var e; destruct e; cbn
  | |- context [match ?o with Some _ => _ | None => _ end] =>
      lazymatch o with
      | context [match _ with _ => _ end] => fail
      | _ => destruct o eqn:?; cbn
      end
  | |- context [if ?b then _ else _] =>
      lazymatch b with
      | context [match _ with _ => _ end] => fail
      | _ => destruct b eqn:?; cbn
      end
  | |- context [match ?n with Dir => _ | File _ => _ end] =>
      is_var n; destruct n; cbn
  | |- context [match ?s with EmptyString => _ | String _ _ => _ end] =>
      is_var s; destruct s; cbn
  end.

Section Authentication.

Variable E : Env.

(** Whatever way [authenticate] ends: it adds to the history only prompts,
    logger calls and calls of the login interface, it submits at most one
    second-factor code, a rejected code ends it with [sys.exit(1)] right
    after the error is logged, and the only path of the file system it can
    change is the credentials file. *)
Lemma authenticate_steps credentials_file w r w' :
  authenticate E credentials_file w = (r, w') →
  ∃ evs, trace w' = evs ++ trace w ∧
    forallb (fun ev => negb (is_capture_step ev)) evs = true ∧
    (count_events is_2fa_submission evs ≤ 1)%nat ∧
    (existsb is_2fa_rejection evs = true →
     r = Raises (SystemExit 1) ∧ head evs = Some rejection_logged) ∧
    (∀ blink, r = Returns blink → existsb is_2fa_rejection evs = false) ∧
    (∀ path, path ≠ credentials_file → fs w' !! path = fs w !! path).
Proof.
  unfold authenticate, saved_login, fresh_login, _do_2fa, environ_or_input.
  run.
  repeat split_reply.
  all: intros [= <- <-]; cbn.
  all: exists_added; cbn.
  all: repeat split; try done; try lia.
  all: intros path Hpath; by rewrite lookup_insert_ne.
Qed.

End Authentication.

(** ** Falling back from stored credentials (C4) *)

(** C4, as stated, fails: a session start that fails by raising anything but
    the second-factor condition ends [authenticate] with that exception; no
    warning is logged and no fresh login is tried. *)
Lemma saved_start_raises_counterexample :
  let run := authenticate Sample.env_start_raises ".credentials.json"
               Sample.world_saved in
  run.1 = Raises (Exception_ "ClientConnectorError") ∧
  history run.2 =
    [Log INFO "Loading saved credentials from %s" [ArgS ".credentials.json"]
         None;
     Start {| data := [("blob", "token=old")]; no_prompt := true |}
           (Err (Exception_ "ClientConnectorError"))].
Proof. split; reflexivity. Qed.

(** A fresh login never removes a file: it only writes, and only when the
    credentials are saved. *)
Lemma fresh_login_keeps_files E credentials_file w r w' :
  fresh_login E credentials_file w = (r, w') →
  ∀ path, is_Some (fs w !! path) → is_Some (fs w' !! path).
Proof.
  unfold fresh_login, _do_2fa, environ_or_input. run.
  repeat split_reply.
  all: intros [= <- <-] path Hpath; cbn; try exact Hpath.
  all: destruct (decide (credentials_file = path)) as [->|Hne];
    [rewrite lookup_insert_eq; eauto|by rewrite lookup_insert_ne].
Qed.

(** C4, amended.  The credentials file is there and decodes.  When the
    session start from it returns without raising and reports failure,
    [authenticate] logs the warning and carries on exactly as a fresh login
    does, from a world whose file system is untouched; however that login
    ends, the credentials file is still there.  When the session start raises
    anything but the second-factor condition, [authenticate] ends with that
    very exception right after the start: no warning is logged, no fresh
    login is made and the file system is untouched. *)
Theorem saved_credentials_fallback E credentials_file w text creds :
  fs w !! credentials_file = Some (File text) →
  json_loads E text = Ok creds →
  let blink := set_auth (Blink_new 30) {| data := creds; no_prompt := true |} in
  (∀ blink',
     blink_start E (clock w) blink = Ok (false, blink') →
     let w' := after_refused_reuse credentials_file creds w in
     authenticate E credentials_file w = fresh_login E credentials_file w' ∧
     head (trace w') =
       Some (Log WARNING "Saved credentials failed, falling back to login." []
                 None) ∧
     fs w' = fs w ∧
     ∀ r w'', authenticate E credentials_file w = (r, w'') →
              is_Some (fs w'' !! credentials_file)) ∧
  (∀ e,
     e ≠ BlinkTwoFARequiredError →
     blink_start E (clock w) blink = Err e →
     authenticate E credentials_file w =
     (Raises e,
      {| clock := S (clock w);
         trace :=
           [Start {| data := creds; no_prompt := true |} (Err e);
            Log INFO "Loading saved credentials from %s"
                [ArgS credentials_file] None] ++ trace w;
         fs := fs w;
         log_level := log_level w |})).
Proof.
  intros Hfile Hjson blink. split.
  - intros blink' Hstart w'.
    assert (Hrun : authenticate E credentials_file w
                   = fresh_login E credentials_file w').
    { unfold authenticate, saved_login. run.
      rewrite Hfile. cbn. rewrite Hfile. cbn. rewrite Hjson. cbn.
      fold blink. rewrite Hstart. cbn. reflexivity. }
    split; [exact Hrun|]. split; [reflexivity|]. split; [reflexivity|].
    intros r w'' Hend. rewrite Hrun in Hend.
    apply (fresh_login_keeps_files _ _ _ _ _ Hend). cbn. by rewrite Hfile.
  - intros e He Hstart.
    unfold authenticate, saved_login. run.
    rewrite Hfile. cbn. rewrite Hfile. cbn. rewrite Hjson. cbn.
    fold blink. rewrite Hstart. cbn. by destruct e.
Qed.

Lemma saved_credentials_fallback_witness :
  (∃ blink w',
     authenticate Sample.env_start_refused ".credentials.json"
       Sample.world_saved = (Returns blink, w') ∧
     Log WARNING "Saved credentials failed, falling back to login." [] None
       ∈ trace w' ∧
     is_Some (fs w' !! ".credentials.json")) ∧
  (authenticate Sample.env_start_raises ".credentials.json"
     Sample.world_saved).1 = Raises (Exception_ "ClientConnectorError").
Proof.
  split.
  - destruct (saved_credentials_fallback Sample.env_start_refused
                ".credentials.json" Sample.world_saved "token=old"
                [("blob", "token=old")] eq_refl eq_refl) as [Hfalse _].
    destruct (Hfalse _ eq_refl) as (Hrun & _ & _ & Hkeep).
    destruct (authenticate Sample.env_start_refused ".credentials.json"
                Sample.world_saved) as [r w'] eqn:Hauth.
    assert (Hr : ∃ blink, r = Returns blink)
      by (vm_compute in Hauth; injection Hauth as <- _; eauto).
    destruct Hr as [blink ->].
    exists blink, w'. split; [reflexivity|].
    split; [|by eapply Hkeep].
    vm_compute in Hauth. injection Hauth as _ <-. cbn. repeat constructor.
  - destruct (saved_credentials_fallback Sample.env_start_raises
                ".credentials.json" Sample.world_saved "token=old"
                [("blob", "token=old")] eq_refl eq_refl) as [_ Hraise].
    rewrite (Hraise (Exception_ "ClientConnectorError")); [reflexivity|done|].
    reflexivity.
Defined.


(** ** What the capture loop does and does not do *)

Section Growth.

Variable P : Event -> bool.

Lemma adds_refl w : adds P w w.
Proof. by exists []. Qed.

Lemma adds_trans w1 w2 w3 : adds P w1 w2 → adds P w2 w3 → adds P w1 w3.
Proof.
  intros (evs1 & H1 & HP1) (evs2 & H2 & HP2).
  exists (evs2 ++ evs1). split.
  - by rewrite H2, H1, app_assoc.
  - rewrite forallb_app. by rewrite HP1, HP2.
Qed.

End Growth.

(** ** Creating directories *)

Section Directories.

(** The walk through the ancestors changes nothing but the file system, where
    it only adds directories at ancestors that were missing; it stops on a
    regular file, and on nothing else. *)
Lemma make_parents_spec dirs w r w' :
  make_parents dirs w = (r, w') →
  clock w' = clock w ∧ trace w' = trace w ∧ log_level w' = log_level w ∧
  (∀ p n, fs w !! p = Some n → fs w' !! p = Some n) ∧
  (∀ p, p ∉ dirs → fs w' !! p = fs w !! p) ∧
  (r = Returns tt ∨ r = Raises (Exception_ "NotADirectoryError")) ∧
  (r = Returns tt → ∀ d, d ∈ dirs → fs w' !! d = Some Dir).
Proof.
  revert w. induction dirs as [|d dirs IH]; intros w.
  - intros [= <- <-]. repeat split; auto.
    intros _ d Hd. by apply elem_of_nil in Hd.
  - cbn [make_parents]. unfold bind at 1, get_fs.
    destruct (fs w !! d) as [[|content]|] eqn:Hd.
    + intros Hrest.
      destruct (IH _ Hrest) as (Hc & Ht & Hl & Hkeep & Hout & Hr & Hin).
      repeat split; auto.
      * intros p Hp. apply Hout. intros Hmem. apply Hp. by right.
      * intros Hret d' [->|Hd']%elem_of_cons; [by apply Hkeep|by apply Hin].
    + intros [= <- <-]. repeat split; auto. discriminate.
    + unfold bind at 1, write_fs. intros Hrest.
      destruct (IH _ Hrest) as (Hc & Ht & Hl & Hkeep & Hout & Hr & Hin).
      cbn in Hc, Ht, Hl, Hkeep, Hout.
      repeat split; auto.
      * intros p n Hp. apply Hkeep. rewrite lookup_insert_ne; [done|].
        intros <-. congruence.
      * intros p Hp. rewrite Hout.
        -- rewrite lookup_insert_ne; [done|]. intros <-. apply Hp. by left.
        -- intros Hmem. apply Hp. by right.
      * intros Hret d' [->|Hd']%elem_of_cons; [|by apply Hin].
        apply Hkeep. by rewrite lookup_insert_eq.
Qed.

(** [mkdir] never advances the clock and never removes or replaces what is
    on the disk; it returns exactly when the directory is there afterwards,
    and it raises only on a regular file at the path or above it. *)
Lemma mkdir_spec path w r w' :
  mkdir path w = (r, w') →
  clock w' = clock w ∧ log_level w' = log_level w ∧
  (∀ p n, fs w !! p = Some n → fs w' !! p = Some n) ∧
  (r = Returns tt →
   trace w' = Mkdir path :: trace w ∧ fs w' !! path = Some Dir) ∧
  (∀ e, r = Raises e →
   trace w' = trace w ∧
   ((e = Exception_ "FileExistsError" ∧
     ∃ content, fs w !! path = Some (File content)) ∨
    (e = Exception_ "NotADirectoryError" ∧ fs w !! path = None))) ∧
  r ≠ OutOfFuel ∧
  (fs w !! path = Some Dir → r = Returns tt ∧ fs w' = fs w).
Proof.
  unfold mkdir. unfold bind at 1, get_fs.
  destruct (fs w !! path) as [[|content]|] eqn:Hpath.
  - intros [= <- <-]. cbn. split_and!; try done.
  - intros [= <- <-]. split_and!; try done.
    intros e' [= <-]. split; [done|]. left. eauto.
  - unfold bind at 1.
    destruct (make_parents (parents path) w) as [[[]|e|] w1] eqn:Hparents;
      destruct (make_parents_spec _ _ _ _ Hparents)
        as (Hc & Ht & Hl & Hkeep & _ & Hr & _).
    + intros [= <- <-]. cbn. rewrite Hc, Ht, Hl. split_and!; try done.
      * intros p n Hp. rewrite lookup_insert_ne; [by apply Hkeep|].
        intros <-. congruence.
      * intros _. split; [done|]. by rewrite lookup_insert_eq.
    + intros [= <- <-]. destruct Hr as [[=] | [= Hr]]. subst e.
      split_and!; try done.
      intros e' [= <-]. split; [done|]. by right.
    + by destruct Hr.
Qed.

Lemma mkdir_quiet path w r w' : mkdir path w = (r, w') → quiet w w'.
Proof.
  intros Hrun. destruct (mkdir_spec _ _ _ _ Hrun) as (_ & _ & _ & Hret & Herr & Hfuel & _).
  destruct r as [[]|e|]; [| |done].
  - destruct (Hret eq_refl) as [Ht _]. exists [Mkdir path]. by rewrite Ht.
  - destruct (Herr e eq_refl) as [Ht _]. exists []. by rewrite Ht.
Qed.

End Directories.


Section Loop.

Variable E : Env.

Lemma capture_frame_quiet blink camera output_dir name w r w' :
  capture_frame E blink camera output_dir name w = (r, w') → quiet w w'.
Proof.
  unfold capture_frame, quiet, adds. run.
  repeat split_reply.
  all: intros [= <- <-]; cbn; by exists_added.
Qed.

Lemma capture_cycle_quiet blink frames_dir cams w r w' :
  capture_cycle E blink frames_dir cams w = (r, w') → quiet w w'.
Proof.
  revert w. induction cams as [|[name camera] cams IH]; intros w.
  - intros [= <- <-]. apply adds_refl.
  - cbn. unfold bind at 1, try_except, bind.
    destruct (capture_frame _ _ _ _ _ w) as [[b|e|] w1] eqn:Hframe;
      apply capture_frame_quiet in Hframe; cbn.
    + intros Hrest. eapply adds_trans; [exact Hframe|]. by eapply IH.
    + destruct (is_Exception e); cbn.
      * intros Hrest. apply IH in Hrest.
        eapply adds_trans; [exact Hframe|].
        eapply adds_trans; [|exact Hrest].
        by eexists [_].
      * by intros [= <- <-].
    + by intros [= <- <-].
Qed.

Lemma make_dirs_quiet frames_dir cams w r w' :
  make_dirs frames_dir cams w = (r, w') → quiet w w'.
Proof.
  revert w. induction cams as [|[name camera] cams IH]; intros w.
  - intros [= <- <-]. apply adds_refl.
  - cbn [make_dirs]. unfold bind at 1.
    destruct (mkdir (joinpath frames_dir name) w) as [[[]|e|] w1] eqn:Hdir;
      apply mkdir_quiet in Hdir.
    + intros Hrest. apply IH in Hrest. by eapply adds_trans.
    + by intros [= <- <-].
    + by intros [= <- <-].
Qed.

Lemma quiet_step ev w w' :
  is_login_step ev = false → trace w' = ev :: trace w → quiet w w'.
Proof. intros Hev Ht. exists [ev]. cbn. by rewrite Hev. Qed.

Lemma quiet_trans w1 w2 w3 : quiet w1 w2 → quiet w2 w3 → quiet w1 w3.
Proof. apply adds_trans. Qed.

Lemma collector_loop_quiet fuel blink interval frames_dir cams once w r w' :
  collector_loop E fuel blink interval frames_dir cams once w = (r, w') →
  quiet w w'.
Proof.
  revert w. induction fuel as [|fuel IH]; intros w.
  - intros [= <- <-]. apply adds_refl.
  - cbn. unfold bind at 1. unfold refresh, interact.
    assert (Hfirst : quiet w (tick (Refresh (blink_refresh E (clock w) blink)) w))
      by (by apply (quiet_step (Refresh (blink_refresh E (clock w) blink)))).
    destruct (blink_refresh E (clock w) blink) as [[]|e]; cbn;
      [|by intros [= <- <-]].
    unfold bind at 1.
    destruct (capture_cycle _ _ _ _ _) as [[[]|e|] w1] eqn:Hcycle;
      apply capture_cycle_quiet in Hcycle;
      pose proof (quiet_trans _ _ _ Hfirst Hcycle) as Hsofar.
    2,3: by intros [= <- <-].
    destruct once; [by intros [= <- <-]|].
    run.
    destruct (asyncio_sleep E (clock w1) interval) as [[]|e]; cbn.
    + intros Hrest. apply IH in Hrest.
      eapply quiet_trans; [exact Hsofar|].
      eapply quiet_trans; [|exact Hrest]. by eexists [_; _].
    + intros [= <- <-].
      eapply quiet_trans; [exact Hsofar|]. by eexists [_; _].
Qed.

End Loop.

(** ** After authentication *)

Ltac quiet_one := eapply quiet_step; [|reflexivity]; reflexivity.

Section Collector.

Variable E : Env.

(** Once [authenticate] has returned, [run_collector] does not touch the
    login interface again. *)
Lemma run_collector_tail_quiet
    fuel interval camera_filter frames_dir credentials_file once
    w blink w1 r w' :
  authenticate E credentials_file w = (Returns blink, w1) →
  run_collector E fuel interval camera_filter frames_dir credentials_file once w
    = (r, w') →
  quiet w1 w'.
Proof.
  intros Hauth. unfold run_collector. unfold bind at 1. rewrite Hauth.
  destruct (available blink); cbn;
    [|intros [= <- <-]; quiet_one].
  destruct (cameras blink) as [|cam cams] eqn:Hcams;
    [intros [= <- <-]; quiet_one|].
  unfold bind at 1. unfold log at 1, emit.
  set (w2 := {| clock := clock w1 |}).
  assert (H12 : quiet w1 w2) by (quiet_one).
  destruct (filter_given camera_filter);
    destruct (resolve_cameras camera_filter (cam :: cams)) as [|c cs];
    try (intros [= <- <-]; eapply quiet_trans; [exact H12|];
         quiet_one).
  all: unfold bind at 1;
    match goal with |- context [make_dirs ?f ?l ?w0] =>
      destruct (make_dirs f l w0) as [[[]|e|] w3] eqn:Hdirs end;
    apply make_dirs_quiet in Hdirs;
    pose proof (quiet_trans _ _ _ H12 Hdirs) as H13;
    try (by intros [= <- <-]).
  all: unfold bind at 1; unfold log at 1, emit;
    match goal with |- context [try_except _ _ ?w] => set (w4 := w) end;
    assert (H34 : quiet w3 w4) by (quiet_one);
    pose proof (quiet_trans _ _ _ H13 H34) as H14;
    unfold try_except;
    match goal with |- context [collector_loop ?E0 ?n ?b ?i ?f ?l ?o ?w0] =>
      destruct (collector_loop E0 n b i f l o w0) as [[[]|e|] w5] eqn:Hloop
    end;
    apply collector_loop_quiet in Hloop;
    pose proof (quiet_trans _ _ _ H14 Hloop) as H15;
    try (by intros [= <- <-]).
  all: destruct e; try (by intros [= <- <-]);
    intros [= <- <-]; (eapply quiet_trans; [exact H15|]); quiet_one.
Qed.

Lemma quiet_events evs :
  forallb (fun ev => negb (is_login_step ev)) evs = true →
  existsb is_2fa_rejection evs = false ∧
  count_events is_2fa_submission evs = 0%nat.
Proof.
  induction evs as [|ev evs IH]; [done|].
  cbn. intros [Hev Hevs]%andb_prop. destruct (IH Hevs) as [IH1 IH2].
  unfold count_events in *. cbn.
  destruct ev; try done; cbn; try rewrite IH1; try done;
    repeat match goal with
    | |- context [match ?r with Ok _ => _ | Err _ => _ end] => destruct r
    | |- context [if ?b then _ else _] => destruct b
    end; done.
Qed.

Lemma rejection_is_submission evs :
  existsb is_2fa_rejection evs = true →
  (1 ≤ count_events is_2fa_submission evs)%nat.
Proof.
  induction evs as [|ev evs IH]; [done|].
  unfold count_events in *. cbn.
  destruct ev; cbn; try exact IH; lia.
Qed.

End Collector.

(** C9.  In any run of the collector in which a submitted second-factor code
    is rejected, the process ends with [sys.exit(1)], an exit status that is
    not zero, right after the error is logged: that submission is the only
    one of the run, and no directory is prepared, nothing is refreshed,
    triggered, waited for or downloaded. *)
Theorem rejected_2fa_is_fatal
    E fuel interval camera_filter frames_dir credentials_file once
    w r w' evs :
  run_collector E fuel interval camera_filter frames_dir credentials_file once w
    = (r, w') →
  trace w' = evs ++ trace w →
  existsb is_2fa_rejection evs = true →
  r = Raises (SystemExit 1) ∧
  exit_status r = Some 1 ∧
  head evs = Some rejection_logged ∧
  count_events is_2fa_submission evs = 1%nat ∧
  forallb (fun ev => negb (is_capture_step ev)) evs = true.
Proof.
  intros Hrun Hevs Hrej.
  destruct (authenticate E credentials_file w) as [ra w1] eqn:Hauth.
  destruct (authenticate_steps E _ _ _ _ Hauth)
    as (evs1 & Ht1 & Hquiet & Hcount & Hfatal & Hpass & _).
  destruct ra as [blink|e|].
  - (* authentication returned: the rejection cannot have happened *)
    exfalso.
    destruct (run_collector_tail_quiet E _ _ _ _ _ _ _ _ _ _ _ Hauth Hrun)
      as (evs2 & Ht2 & Hq2).
    rewrite Ht2, Ht1, app_assoc in Hevs. apply app_inv_tail in Hevs.
    subst evs. rewrite existsb_app in Hrej.
    rewrite (Hpass blink eq_refl) in Hrej.
    destruct (quiet_events evs2 Hq2) as [Hno _]. rewrite Hno in Hrej. done.
  - unfold run_collector in Hrun. unfold bind at 1 in Hrun.
    rewrite Hauth in Hrun. injection Hrun as <- <-.
    rewrite Ht1 in Hevs. apply app_inv_tail in Hevs. subst evs1.
    destruct (Hfatal Hrej) as [[= ->] Hhead].
    repeat split; try done.
    pose proof (rejection_is_submission evs Hrej). lia.
  - unfold run_collector in Hrun. unfold bind at 1 in Hrun.
    rewrite Hauth in Hrun. injection Hrun as <- <-.
    rewrite Ht1 in Hevs. apply app_inv_tail in Hevs. subst evs1.
    by destruct (Hfatal Hrej) as [[=] _].
Qed.

Lemma rejected_2fa_is_fatal_witness :
  let run := run_collector Sample.env_2fa_rejected 3 600 None "frames"
               ".credentials.json" false Sample.world_saved in
  run.1 = Raises (SystemExit 1) ∧
  exit_status run.1 = Some 1 ∧
  head (trace run.2) = Some rejection_logged.
Proof.
  intros run.
  destruct (rejected_2fa_is_fatal Sample.env_2fa_rejected 3 600 None "frames"
              ".credentials.json" false Sample.world_saved run.1 run.2
              (trace run.2))
    as (H1 & H2 & H3 & _).
  - vm_compute. reflexivity.
  - vm_compute. reflexivity.
  - vm_compute. reflexivity.
  - repeat split; assumption.
Defined.

(** ** Stopping before the first capture (C8) *)

Lemma filter_cameras_disjoint names (cams : list (string * Camera)) :
  (∀ name, name ∈ names → name ∉ cams.*1) →
  filter_cameras names cams = [].
Proof.
  intros Hdisj. unfold filter_cameras.
  induction cams as [|[k v] cams IH]; [done|].
  rewrite filter_cons. cbn [fst].
  destruct (decide (k ∈ names)) as [Hin|_].
  - exfalso. apply (Hdisj k Hin). cbn. left.
  - apply IH. intros name Hname Hmem. apply (Hdisj name Hname). cbn. by right.
Qed.

(** C8.  When the session that [authenticate] returned is unavailable, or has
    no cameras, or none of its cameras is named in the filter that was
    supplied, [run_collector] logs an error and returns: the exit status is 0,
    the error is the last entry of the history, the run has prepared no
    directory and has refreshed, triggered, waited for and downloaded
    nothing, and apart from the credentials file the file system is as it
    was. *)
Theorem early_stop
    E fuel interval camera_filter frames_dir credentials_file once
    w blink w1 :
  authenticate E credentials_file w = (Returns blink, w1) →
  available blink = false ∨
  cameras blink = [] ∨
  (∃ names, camera_filter = Some names ∧ names ≠ [] ∧
            ∀ name, name ∈ names → name ∉ (cameras blink).*1) →
  ∃ w' fmt args evs,
    run_collector E fuel interval camera_filter frames_dir credentials_file
      once w = (Returns tt, w') ∧
    exit_status (Returns tt) = Some 0 ∧
    head (trace w') = Some (Log ERROR fmt args None) ∧
    trace w' = evs ++ trace w ∧
    forallb (fun ev => negb (is_capture_step ev)) evs = true ∧
    fs w' = fs w1 ∧
    (∀ path, path ≠ credentials_file → fs w' !! path = fs w !! path).
Proof.
  intros Hauth Hstop.
  destruct (authenticate_steps E _ _ _ _ Hauth)
    as (evs1 & Ht1 & Hquiet & _ & _ & _ & Hfs).
  unfold run_collector. unfold bind at 1. rewrite Hauth.
  destruct (available blink) eqn:Havail; cbn.
  2: { eexists _, _, _, (_ :: evs1). split; [reflexivity|]. cbn.
       rewrite Ht1. by repeat split. }
  destruct (cameras blink) as [|cam cams] eqn:Hcams.
  { eexists _, _, _, (_ :: evs1). split; [reflexivity|]. cbn.
    rewrite Ht1. by repeat split. }
  destruct Hstop as [[=]|[[=]|(names & -> & Hnames & Hdisj)]].
  destruct names as [|n ns]; [done|].
  cbn [resolve_cameras filter_given].
  rewrite (filter_cameras_disjoint _ _ Hdisj).
  run.
  eexists _, _, _, (_ :: _ :: evs1). split; [reflexivity|]. cbn.
  rewrite Ht1. by repeat split.
Qed.

Lemma early_stop_witness :
  ∃ w',
    run_collector Sample.env_unavailable 3 600 None "frames"
      ".credentials.json" false Sample.world0 = (Returns tt, w') ∧
    head (trace w') =
      Some (Log ERROR "Blink system not available after authentication." []
                None).
Proof.
  edestruct (early_stop Sample.env_unavailable 3 600 None "frames"
               ".credentials.json" false Sample.world0)
    as (w' & fmt & args & evs & Hrun & _ & Hhead & _).
  - vm_compute. reflexivity.
  - left. reflexivity.
  - exists w'. split; [exact Hrun|].
    vm_compute in Hrun. injection Hrun as <-. reflexivity.
Defined.

(** ** The user interrupt (C3) *)

Lemma main_unfold E fuel args w :
  main E fuel args w =
  asyncio_run
    (run_collector E fuel (arg_interval args) (arg_cameras args)
       (arg_frames_dir args) (arg_credentials args) (arg_once args))
    (entry args w).
Proof. unfold main, entry, bind, set_level, ret. by destruct (arg_verbose args). Qed.

(** *** No handler of the program sees a cancellation *)

Section Cancellation.

Variable E : Env.

Lemma passes_ret {A} (a : A) : passes_cancellation (ret a).
Proof. intros w r w' [= <- <-]. exists []. split_and!; [done..|by left]. Qed.

Lemma passes_raise {A} e : passes_cancellation (@raise A e).
Proof. intros w r w' [= <- <-]. exists []. split_and!; [done..|by left]. Qed.

Lemma passes_pure {A} (r0 : result A) : passes_cancellation (fun w => (r0, w)).
Proof. intros w r w' [= <- <-]. exists []. split_and!; [done..|by left]. Qed.

Lemma passes_get_fs path : passes_cancellation (get_fs path).
Proof. intros w r w' [= <- <-]. exists []. split_and!; [done..|by left]. Qed.

Lemma passes_write_fs path n : passes_cancellation (write_fs path n).
Proof. intros w r w' [= <- <-]. exists []. split_and!; [done..|by left]. Qed.

Lemma passes_log lvl fmt args :
  is_stop_line (Log lvl fmt args None) = false →
  passes_cancellation (log lvl fmt args).
Proof.
  intros Hstop w r w' [= <- <-]. exists [Log lvl fmt args None].
  cbn [forallb]. rewrite Hstop. split_and!; [done..|by left].
Qed.

Lemma passes_interact {A} (ask : nat → reply A) (ev : reply A → Event) :
  (∀ r, is_stop_line (ev r) = false) →
  (∀ r, is_cancelled (ev r) = true → of_reply r = Raises (CancelledError true)) →
  passes_cancellation (interact ask ev).
Proof.
  intros Hstop Hcancel w r w' [= <- <-]. exists [ev (ask (clock w))].
  cbn [forallb tick trace]. rewrite Hstop.
  split; [done|]. split; [done|].
  destruct (is_cancelled (ev (ask (clock w)))) eqn:Hc; [right|by left].
  split; [by apply Hcancel|]. by eexists _, _.
Qed.

Lemma passes_bind {A B} (m : M A) (k : A → M B) :
  passes_cancellation m → (∀ a, passes_cancellation (k a)) →
  passes_cancellation (x <- m ;; k x).
Proof.
  intros Hm Hk w r w'. unfold bind.
  destruct (m w) as [[a|e|] w1] eqn:Hrun;
    destruct (Hm _ _ _ Hrun) as (evs1 & Ht1 & Hs1 & Hc1).
  - destruct Hc1 as [Hc1 | [[=] _]].
    intros Hrest. destruct (Hk _ _ _ _ Hrest) as (evs2 & Ht2 & Hs2 & Hc2).
    exists (evs2 ++ evs1). rewrite Ht2, Ht1, app_assoc, !forallb_app, Hs1, Hs2.
    split; [done|]. split; [done|].
    destruct Hc2 as [Hc2 | (-> & ev & rest & -> & Hev & Hrest2)].
    + left. by rewrite Hc2, Hc1.
    + right. split; [done|]. exists ev, (rest ++ evs1).
      by rewrite forallb_app, Hrest2, Hc1.
  - intros [= <- <-]. exists evs1. split; [done|]. split; [done|].
    destruct Hc1 as [Hc1 | ([= ->] & Hc1)]; [by left|by right].
  - intros [= <- <-]. exists evs1. split; [done|]. split; [done|].
    destruct Hc1 as [Hc1 | ([=] & _)]. by left.
Qed.

(** A handler that does not match [CancelledError] lets it through. *)
Lemma passes_try {A} (body : M A) handler :
  passes_cancellation body →
  handler (CancelledError true) = None →
  (∀ e h, handler e = Some h → passes_cancellation h) →
  passes_cancellation (try_except body handler).
Proof.
  intros Hb Hnone Hh w r w'. unfold try_except.
  destruct (body w) as [[a|e|] w1] eqn:Hrun;
    destruct (Hb _ _ _ Hrun) as (evs1 & Ht1 & Hs1 & Hc1).
  - intros [= <- <-]. by exists evs1.
  - destruct (handler e) as [h|] eqn:He.
    + assert (Hc1' : forallb (λ ev, negb (is_cancelled ev)) evs1 = true).
      { destruct Hc1 as [Hc1 | ([= ->] & _)]; [done|congruence]. }
      intros Hrest.
      destruct (Hh _ _ He _ _ _ Hrest) as (evs2 & Ht2 & Hs2 & Hc2).
      exists (evs2 ++ evs1).
      rewrite Ht2, Ht1, app_assoc, !forallb_app, Hs1, Hs2.
      split; [done|]. split; [done|].
      destruct Hc2 as [Hc2 | (-> & ev & rest & -> & Hev & Hrest2)].
      * left. by rewrite Hc2, Hc1'.
      * right. split; [done|]. exists ev, (rest ++ evs1).
        by rewrite forallb_app, Hrest2, Hc1'.
    + intros [= <- <-]. by exists evs1.
  - intros [= <- <-]. by exists evs1.
Qed.

Ltac reply_cases := by intros [?|[| | | |[|]]].

Ltac through :=
  repeat first
    [ apply passes_ret | apply passes_raise | apply passes_get_fs
    | apply passes_write_fs | apply passes_pure
    | apply passes_log; reflexivity
    | apply passes_interact; [reply_cases|reply_cases]
    | apply passes_bind; [|intros ?]
    | match goal with
      | |- passes_cancellation (if ?b then _ else _) => destruct b
      | |- passes_cancellation (match ?x with _ => _ end) => destruct x
      end ].

Lemma passes_do_2fa blink : passes_cancellation (_do_2fa E blink).
Proof. unfold _do_2fa, py_input, send_2fa_code, sys_exit. through. Qed.

Lemma passes_save blink path : passes_cancellation (save E blink path).
Proof. unfold save. through. Qed.

Lemma passes_start blink : passes_cancellation (start E blink).
Proof. unfold start. through. Qed.

Lemma passes_saved_login credentials_file :
  passes_cancellation (saved_login E credentials_file).
Proof.
  unfold saved_login, Path_exists, read_text.
  apply passes_bind; [through|intros present].
  destruct present; [|through].
  apply passes_bind; [through|intros _].
  apply passes_bind; [through|intros text].
  apply passes_bind; [through|intros creds].
  apply passes_try; [|done|].
  - apply passes_bind; [apply passes_start|intros started].
    destruct started.1; (apply passes_bind; [|intros ?; through]);
      [apply passes_save|through].
  - intros e h. destruct e; intros [= <-].
    apply passes_bind; [apply passes_do_2fa|intros b].
    apply passes_bind; [apply passes_save|intros ?; through].
Qed.

Lemma passes_fresh_login credentials_file :
  passes_cancellation (fresh_login E credentials_file).
Proof.
  unfold fresh_login, environ_or_input, py_input.
  apply passes_bind;
    [destruct (environ E "BLINK_USERNAME") as [[|]|]; through|intros username].
  apply passes_bind;
    [destruct (environ E "BLINK_PASSWORD") as [[|]|]; through|intros password].
  apply passes_bind.
  - apply passes_try; [|done|].
    + apply passes_bind; [apply passes_start|intros ?; through].
    + intros e h. destruct e; intros [= <-]. apply passes_do_2fa.
  - intros b. apply passes_bind; [apply passes_save|intros ?; through].
Qed.

Lemma passes_authenticate credentials_file :
  passes_cancellation (authenticate E credentials_file).
Proof.
  unfold authenticate.
  apply passes_bind; [apply passes_saved_login|].
  intros [b|]; [through|apply passes_fresh_login].
Qed.

Lemma passes_image_to_file camera path :
  passes_cancellation (image_to_file E camera path).
Proof.
  intros w r w'. unfold image_to_file, leave, bind, write_fs, raise, ret.
  set (reply := camera_image_to_file E (clock w) camera path).
  assert (Hgo : ∀ fs', unhandled (A := unit) w
            (of_reply (map_reply (λ _, tt) reply))
            {| clock := S (clock w);
               trace := ImageToFile camera path reply :: trace w;
               fs := fs'; log_level := log_level w |}).
  { intros fs'. exists [ImageToFile camera path reply]. cbn.
    split; [done|]. split; [done|].
    destruct reply as [?|[| | | |[|]]]; cbn; first [by left|right].
    split; [done|]. by eexists _, _. }
  destruct reply as [[content|]|e]; cbn.
  1,2: intros [= <- <-]; apply Hgo.
  destruct (image_left_on_error E _ camera path); cbn;
    intros [= <- <-]; apply Hgo.
Qed.

Lemma passes_capture_frame blink camera output_dir name :
  passes_cancellation (capture_frame E blink camera output_dir name).
Proof.
  unfold capture_frame, snap_picture, sleep, refresh.
  apply passes_bind;
    [intros w r w' [= <- <-]; exists []; split_and!; [done..|by left]
    |intros timestamp].
  do 5 (apply passes_bind; [through|intros ?]).
  apply passes_bind; [apply passes_image_to_file|intros ?].
  intros w r w'. unfold bind, log, emit, ret.
  destruct (valid_frame E w _); intros [= <- <-]; eexists [_];
    (split_and!; [done..|by left]).
Qed.

Lemma passes_mkdir path : passes_cancellation (mkdir path).
Proof.
  intros w r w' Hrun.
  destruct (mkdir_spec _ _ _ _ Hrun) as (_ & _ & _ & Hret & Herr & Hfuel & _).
  destruct r as [[]|e|]; [| |done].
  - destruct (Hret eq_refl) as [Ht _]. exists [Mkdir path].
    rewrite Ht. split_and!; [done..|by left].
  - destruct (Herr e eq_refl) as [Ht _]. exists [].
    rewrite Ht. split_and!; [done..|by left].
Qed.

Lemma passes_make_dirs frames_dir cams :
  passes_cancellation (make_dirs frames_dir cams).
Proof.
  induction cams as [|[name camera] cams IH]; cbn [make_dirs]; [through|].
  apply passes_bind; [apply passes_mkdir|by intros ?].
Qed.

Lemma passes_capture_cycle blink frames_dir cams :
  passes_cancellation (capture_cycle E blink frames_dir cams).
Proof.
  induction cams as [|[name camera] cams IH]; cbn [capture_cycle]; [through|].
  apply passes_bind; [|by intros ?].
  apply passes_try; [|done|].
  - apply passes_bind; [apply passes_capture_frame|intros ?; through].
  - intros e h. destruct (is_Exception e); intros [= <-].
    unfold log_exception. intros w r w' [= <- <-].
    exists [Log ERROR "Unexpected error capturing from '%s'" [ArgS name] (Some e)].
    split_and!; [done..|by left].
Qed.

Lemma passes_collector_loop fuel blink interval frames_dir cams once :
  passes_cancellation
    (collector_loop E fuel blink interval frames_dir cams once).
Proof.
  induction fuel as [|fuel IH]; cbn [collector_loop]; [apply passes_pure|].
  unfold refresh, sleep.
  apply passes_bind; [through|intros ?].
  apply passes_bind; [apply passes_capture_cycle|intros ?].
  destruct once; [through|].
  do 2 (apply passes_bind; [through|intros ?]). exact IH.
Qed.

Lemma not_cancelled evs :
  forallb (fun ev => negb (is_cancelled ev)) evs = true →
  existsb is_cancelled evs = false.
Proof.
  induction evs as [|ev evs IH]; [done|]. cbn.
  destruct (is_cancelled ev); [done|]. exact IH.
Qed.

Lemma ends_weaken {A} (m : M A) :
  passes_cancellation m → ends_on_cancellation m.
Proof.
  intros Hm w r w' Hrun.
  destruct (Hm _ _ _ Hrun) as (evs & Ht & Hs & Hc).
  exists evs. split; [done|]. intros Hex.
  destruct Hc as [Hc | (-> & ev & rest & -> & Hev & _)].
  - by rewrite (not_cancelled _ Hc) in Hex.
  - split; [done|]. split; [done|]. by eexists _, _.
Qed.

Lemma ends_bind {A B} (m : M A) (k : A → M B) :
  passes_cancellation m → (∀ a, ends_on_cancellation (k a)) →
  ends_on_cancellation (x <- m ;; k x).
Proof.
  intros Hm Hk w r w'. unfold bind.
  destruct (m w) as [[a|e|] w1] eqn:Hrun.
  - destruct (Hm _ _ _ Hrun) as (evs1 & Ht1 & Hs1 & [Hc1 | [[=] _]]).
    intros Hrest. destruct (Hk _ _ _ _ Hrest) as (evs2 & Ht2 & Hprop).
    exists (evs2 ++ evs1). rewrite Ht2, Ht1, app_assoc. split; [done|].
    rewrite existsb_app, (not_cancelled _ Hc1), orb_false_r. intros Hex.
    destruct (Hprop Hex) as (-> & Hs2 & ev & rest & -> & Hev).
    split; [done|]. rewrite forallb_app, Hs2, Hs1.
    split; [done|]. by eexists _, _.
  - intros [= <- <-].
    apply (ends_weaken (m ;;; raise e)); [by apply passes_bind; [|intros ?; apply passes_raise]|].
    unfold bind. by rewrite Hrun.
  - intros [= <- <-].
    apply (ends_weaken (m ;;; raise (Exception_ ""))); [by apply passes_bind; [|intros ?; apply passes_raise]|].
    unfold bind. by rewrite Hrun.
Qed.

(** The handler around the loop is for [KeyboardInterrupt] only: a
    cancellation passes it, and the line of the handler is only logged in a
    run without a cancellation. *)
Lemma ends_try_interrupt (body : M unit) :
  passes_cancellation body →
  ends_on_cancellation
    (try_except body
       (fun e =>
          match e with
          | KeyboardInterrupt => Some (log INFO "Stopped by user." [])
          | _ => None
          end)).
Proof.
  intros Hb w r w'. unfold try_except.
  destruct (body w) as [[[]|e|] w1] eqn:Hrun.
  1,3: intros [= <- <-]; by apply (ends_weaken body).
  destruct e; try (intros [= <- <-]; by apply (ends_weaken body)).
  destruct (Hb _ _ _ Hrun) as (evs1 & Ht1 & Hs1 & [Hc1 | [[=] _]]).
  intros [= <- <-]. exists (stopped_by_user :: evs1). cbn.
  split; [by rewrite Ht1|]. by rewrite (not_cancelled _ Hc1).
Qed.

(** When a run of [run_collector] holds a cancelled call, that call is the
    last thing that happened, the run ends with the cancellation, and the
    line of the handler is not in the history. *)
Lemma run_collector_cancelled
    fuel interval camera_filter frames_dir credentials_file once :
  ends_on_cancellation
    (run_collector E fuel interval camera_filter frames_dir credentials_file
       once).
Proof.
  unfold run_collector.
  apply ends_bind; [apply passes_authenticate|intros blink].
  destruct (negb (available blink)); [apply ends_weaken; through|].
  destruct (cameras blink) as [|cam cams]; [apply ends_weaken; through|].
  assert (Hd : ∀ cs, ends_on_cancellation
    (make_dirs frames_dir cs;;;
     log INFO "Starting capture: %d camera(s), interval=%ds%s"
       [ArgZ (Z.of_nat (length cs)); ArgZ interval;
        ArgS (if once then " [single shot]" else "")];;;
     try_except (collector_loop E fuel blink interval frames_dir cs once)
       (λ e, match e with
             | KeyboardInterrupt => Some (log INFO "Stopped by user." [])
             | _ => None
             end))).
  { intros cs. apply ends_bind; [apply passes_make_dirs|intros ?].
    apply ends_bind; [through|intros ?].
    apply ends_try_interrupt, passes_collector_loop. }
  apply ends_bind; [through|intros ?].
  destruct (filter_given camera_filter);
    destruct (resolve_cameras camera_filter (cam :: cams)) as [|c cs];
    try apply Hd.
  apply ends_weaken. through.
Qed.

End Cancellation.

Lemma no_stop_line evs :
  forallb (fun ev => negb (is_stop_line ev)) evs = true →
  stopped_by_user ∉ evs.
Proof.
  induction evs as [|ev evs IH]; cbn; [intros _ H; by apply elem_of_nil in H|].
  intros [Hev Hevs]%andb_prop [<-|Hin]%elem_of_cons; [done|by apply IH].
Qed.

(** C3.  The code departs from the claim.  Under [asyncio.run] the user
    interrupt cancels the main task: the awaited call the program is
    suspended in raises [CancelledError], which the
    [except KeyboardInterrupt] around the loop does not match, and no other
    handler of the program does.  Whenever an awaited call of a run of
    [main] is cancelled that way (during authentication, a capture, the
    settle delay or the wait between two cycles), that call is the last thing
    that happens, the line that says the program was stopped by the user is
    not logged, and [main] ends with the [KeyboardInterrupt] that
    [asyncio.run] raises: the exit status is not 0. *)
Theorem interrupt_is_not_handled E fuel args w r w' evs :
  main E fuel args w = (r, w') →
  trace w' = evs ++ trace w →
  existsb is_cancelled evs = true →
  r = Raises KeyboardInterrupt ∧
  exit_status r ≠ Some 0 ∧
  (stopped_by_user ∉ evs) ∧
  ∃ ev rest, evs = ev :: rest ∧ is_cancelled ev = true.
Proof.
  rewrite main_unfold. unfold asyncio_run.
  destruct (run_collector _ _ _ _ _ _ _ _) as [r0 w0] eqn:Hrun.
  destruct (run_collector_cancelled _ _ _ _ _ _ _ _ _ _ Hrun)
    as (evs0 & Ht0 & Hprop).
  assert (Hentry : trace (entry args w) = trace w)
    by (unfold entry; by destruct (arg_verbose args)).
  rewrite Hentry in Ht0.
  intros Hout Ht Hex.
  assert (Hw : w' = w0)
    by (destruct r0 as [[]|[| | | |[|]]|]; by injection Hout).
  subst w'. rewrite Ht0 in Ht. apply app_inv_tail in Ht. subst evs0.
  destruct (Hprop Hex) as (-> & Hs & Hhead).
  injection Hout as <-.
  split; [done|]. split; [done|]. split; [|done].
  by apply no_stop_line.
Qed.

Lemma interrupt_is_not_handled_witness :
  let args := {| arg_interval := 600; arg_cameras := None;
                 arg_frames_dir := "frames";
                 arg_credentials := ".credentials.json";
                 arg_once := false; arg_verbose := false |} in
  let run := main (interrupt_at 11 Sample.env) 3 args Sample.world0 in
  run.1 = Raises KeyboardInterrupt ∧
  head (trace run.2) = Some (Sleep 600 (Err (CancelledError true))) ∧
  (stopped_by_user ∉ trace run.2).
Proof.
  intros args run.
  destruct (interrupt_is_not_handled (interrupt_at 11 Sample.env) 3 args
              Sample.world0 run.1 run.2 (trace run.2))
    as (Hr & _ & Hstop & _).
  - apply surjective_pairing.
  - vm_compute. reflexivity.
  - vm_compute. reflexivity.
  - split; [exact Hr|]. split; [vm_compute; reflexivity|exact Hstop].
Defined.

(** ** The single-shot scenario (C5) *)

(** *** The name of a frame *)









(** *** Creating a directory that is not there *)



Lemma count_events_app p evs1 evs2 :
  count_events p (evs1 ++ evs2) =
  (count_events p evs1 + count_events p evs2)%nat.
Proof. unfold count_events. by rewrite List.filter_app, length_app. Qed.





(** ** Saving after a login that did not succeed (C1) *)

(** C1 at the input on which the code goes wrong: no credentials file, and a
    service that refuses the login, so that session start returns [False].
    [authenticate] ignores that result: it saves the credentials of the
    session that never started, logs that they were saved and returns the
    session. *)
Theorem fresh_login_refused_still_saves :
  let run := authenticate Sample.env_start_refused ".credentials.json"
               Sample.world0 in
  (∃ blink, run.1 = Returns blink) ∧
  history run.2 =
    [Start {| data := [("username", "me@example.org"); ("password", "secret")];
              no_prompt := false |} (Ok false);
     Save ".credentials.json" (Ok tt);
     Log INFO "Credentials saved to %s" [ArgS ".credentials.json"] None] ∧
  fs Sample.world0 !! ".credentials.json" = None ∧
  fs run.2 !! ".credentials.json" =
    Some (File "username=me@example.org,password=secret").
Proof.
  intros run. split; [eexists; vm_compute; reflexivity|].
  repeat split; vm_compute; reflexivity.
Qed.

(** * Further properties of the code *)

(** ** Authentication *)

(** X1.  Reuse of stored credentials.  When the credentials file parses, the
    session starts from it and the save works, [authenticate] returns that
    session after exactly three steps (the log line, the start with prompts
    forbidden, the save): it asks the user nothing and makes no fresh login,
    and the file now holds the dump of the session's current login
    attributes, so that a later run loads exactly those. *)
Theorem saved_credentials_reuse E credentials_file w text creds blink' :
  fs w !! credentials_file = Some (File text) →
  json_loads E text = Ok creds →
  blink_start E (clock w)
    (set_auth (Blink_new 30) {| data := creds; no_prompt := true |})
    = Ok (true, blink') →
  blink_save E (S (clock w)) blink' credentials_file = Ok tt →
  ∃ w',
    authenticate E credentials_file w = (Returns blink', w') ∧
    trace w' =
      [Save credentials_file (Ok tt);
       Start {| data := creds; no_prompt := true |} (Ok true);
       Log INFO "Loading saved credentials from %s" [ArgS credentials_file]
           None] ++ trace w ∧
    fs w' =
      <[credentials_file := File (json_dumps E (data (auth blink')))]> (fs w) ∧
    read_text credentials_file w'
      = (Returns (json_dumps E (data (auth blink'))), w').
Proof.
  intros Hfile Hjson Hstart Hsave.
  eexists. split.
  - unfold authenticate, saved_login. run.
    rewrite Hfile. cbn. rewrite Hfile. cbn. rewrite Hjson. cbn.
    rewrite Hstart. cbn. rewrite Hsave. cbn. reflexivity.
  - cbn. split; [reflexivity|]. split; [reflexivity|].
    unfold read_text. run. by rewrite lookup_insert_eq.
Qed.

Lemma saved_credentials_reuse_witness :
  ∃ blink w',
    authenticate Sample.env ".credentials.json" Sample.world_saved
      = (Returns blink, w') ∧
    fs w' !! ".credentials.json" = Some (File "token=t1,blob=token=old").
Proof.
  destruct (saved_credentials_reuse Sample.env ".credentials.json"
              Sample.world_saved "token=old" [("blob", "token=old")]
              (Sample.session {| data := [("blob", "token=old")];
                                 no_prompt := true |})
              eq_refl eq_refl eq_refl eq_refl)
    as (w' & Hrun & _ & Hfs & _).
  eexists _, w'. split; [exact Hrun|].
  rewrite Hfs. vm_compute. reflexivity.
Defined.

(** X2.  Stored credentials that need a second factor.  When the start from
    the stored credentials raises the second-factor condition, the user is
    asked for the pin once, what is submitted is the answer as the builtin
    [str.strip()] returns it, and when the service accepts it the session is
    saved and returned: no user name or password is asked for, and the
    session is not started a second time. *)
Theorem saved_credentials_second_factor
    E credentials_file w text creds raw blink' :
  let blink := set_auth (Blink_new 30) {| data := creds; no_prompt := true |} in
  fs w !! credentials_file = Some (File text) →
  json_loads E text = Ok creds →
  blink_start E (clock w) blink = Err BlinkTwoFARequiredError →
  input E (S (clock w)) pin_prompt = Ok raw →
  blink_send_2fa_code E (S (S (clock w))) blink (str_strip E raw) = Ok (true, blink') →
  blink_save E (S (S (S (clock w)))) blink' credentials_file = Ok tt →
  ∃ w',
    authenticate E credentials_file w = (Returns blink', w') ∧
    trace w' =
      [Save credentials_file (Ok tt);
       Send2FA (str_strip E raw) (Ok true);
       Input pin_prompt (Ok raw);
       Start {| data := creds; no_prompt := true |}
             (Err BlinkTwoFARequiredError);
       Log INFO "Loading saved credentials from %s" [ArgS credentials_file]
           None] ++ trace w ∧
    fs w' =
      <[credentials_file := File (json_dumps E (data (auth blink')))]> (fs w).
Proof.
  intros blink Hfile Hjson Hstart Hinput Hsend Hsave.
  eexists. split.
  - unfold authenticate, saved_login, _do_2fa. run.
    rewrite Hfile. cbn. rewrite Hfile. cbn. rewrite Hjson. cbn.
    fold blink. rewrite Hstart. cbn.
    unfold pin_prompt in Hinput. rewrite Hinput. cbn.
    rewrite Hsend. cbn. rewrite Hsave. cbn. reflexivity.
  - cbn. split; reflexivity.
Qed.

Lemma saved_credentials_second_factor_witness :
  ∃ blink w',
    authenticate Sample.env_2fa_accepted ".credentials.json"
      Sample.world_saved = (Returns blink, w') ∧
    Send2FA "123456" (Ok true) ∈ trace w'.
Proof.
  destruct (saved_credentials_second_factor Sample.env_2fa_accepted
              ".credentials.json" Sample.world_saved "token=old"
              [("blob", "token=old")] " 123456 "
              (Sample.session {| data := [("blob", "token=old")];
                                 no_prompt := true |})
              eq_refl eq_refl eq_refl eq_refl eq_refl eq_refl)
    as (w' & Hrun & Htrace & _).
  eexists _, w'. split; [exact Hrun|].
  rewrite Htrace. right. left.
Defined.

(** X4.  A credentials file that cannot be decoded.  When the file is there
    but its content is not valid JSON, [authenticate] ends with the decoding
    error right after the log line: the service is not contacted, the user is
    not asked anything, there is no fall back to a fresh login, and the file
    is left as it is. *)
Theorem undecodable_credentials_abort E credentials_file w text e :
  fs w !! credentials_file = Some (File text) →
  json_loads E text = Err e →
  authenticate E credentials_file w =
  (Raises e,
   logged (Log INFO "Loading saved credentials from %s"
               [ArgS credentials_file] None) w).
Proof.
  intros Hfile Hjson. unfold authenticate, saved_login. run.
  rewrite Hfile. cbn. rewrite Hfile. cbn. rewrite Hjson. reflexivity.
Qed.

Lemma undecodable_credentials_abort_witness :
  (authenticate Sample.env_bad_json ".credentials.json" Sample.world_saved).1
  = Raises (Exception_ "JSONDecodeError").
Proof.
  rewrite (undecodable_credentials_abort Sample.env_bad_json
             ".credentials.json" Sample.world_saved "token=old"
             (Exception_ "JSONDecodeError") eq_refl eq_refl).
  reflexivity.
Defined.

(** X3.  Whatever path [authenticate] takes, when it returns a session the
    credentials file holds the dump of that session's login attributes, no
    other path of the file system has changed, and the last thing it did with
    the outside world was the save that succeeded. *)
Theorem authenticate_returns_saved E credentials_file w blink w' :
  authenticate E credentials_file w = (Returns blink, w') →
  fs w' =
    <[credentials_file := File (json_dumps E (data (auth blink)))]> (fs w) ∧
  ∃ evs,
    trace w' = evs ++ trace w ∧
    head (List.filter (fun ev => negb (is_log ev)) evs)
      = Some (Save credentials_file (Ok tt)).
Proof.
  unfold authenticate, saved_login, fresh_login, _do_2fa, environ_or_input.
  run.
  repeat split_reply.
  all: intros H; try discriminate H; injection H as <- <-; cbn.
  all: split; [reflexivity|]; by exists_added.
Qed.

Lemma authenticate_returns_saved_witness :
  ∃ blink w',
    authenticate Sample.env ".credentials.json" Sample.world0
      = (Returns blink, w') ∧
    fs w' !! ".credentials.json"
      = Some (File "token=t1,username=me@example.org,password=secret").
Proof.
  eexists _, _. split; [vm_compute; reflexivity|].
  match goal with
  | |- fs ?w' !! _ = _ =>
      destruct (authenticate_returns_saved Sample.env ".credentials.json"
                  Sample.world0 _ w' eq_refl) as [Hfs _];
      rewrite Hfs
  end.
  vm_compute. reflexivity.
Defined.

(** X5.  Credentials from the process environment.  When [BLINK_USERNAME]
    and [BLINK_PASSWORD] are both set and not empty, no execution of
    [authenticate] asks for the user name or the password, however it goes:
    the only prompt it can issue is the one for the second-factor pin, and a
    fresh login is started with exactly the two values of the environment. *)
Theorem environment_credentials_skip_prompts
    E credentials_file w username password r w' :
  environ E "BLINK_USERNAME" = Some username → username ≠ "" →
  environ E "BLINK_PASSWORD" = Some password → password ≠ "" →
  authenticate E credentials_file w = (r, w') →
  ∃ evs,
    trace w' = evs ++ trace w ∧
    count_events is_login_prompt evs = 0%nat ∧
    ∀ a reply,
      Start a reply ∈ evs → no_prompt a = false →
      data a = [("username", username); ("password", password)].
Proof.
  intros Hu Hune Hp Hpne.
  unfold authenticate, saved_login, fresh_login, _do_2fa, environ_or_input.
  rewrite Hu, Hp.
  destruct username as [|cu username]; [done|].
  destruct password as [|cp password]; [done|].
  run.
  repeat split_reply.
  all: intros [= <- <-]; cbn.
  all: exists_added; split; [reflexivity|].
  all: intros au rp Hin Hnp;
    repeat (apply elem_of_cons in Hin as [Hin|Hin];
            [try discriminate Hin; injection Hin as -> _; try done|]);
    by apply elem_of_nil in Hin.
Qed.

Lemma environment_credentials_skip_prompts_witness :
  ∃ evs,
    trace (authenticate Sample.env_2fa_accepted ".credentials.json"
             Sample.world0).2 = evs ++ [] ∧
    count_events is_login_prompt evs = 0%nat.
Proof.
  destruct (environment_credentials_skip_prompts Sample.env_2fa_accepted
              ".credentials.json" Sample.world0 "me@example.org" "secret"
              (authenticate Sample.env_2fa_accepted ".credentials.json"
                 Sample.world0).1
              (authenticate Sample.env_2fa_accepted ".credentials.json"
                 Sample.world0).2)
    as (evs & Ht & Hcount & _).
  - reflexivity.
  - discriminate.
  - reflexivity.
  - discriminate.
  - vm_compute. reflexivity.
  - exists evs. split; [exact Ht | exact Hcount].
Defined.

(** ** Captures and cycles *)

Lemma snapshots_app evs1 evs2 :
  snapshots (evs1 ++ evs2) = snapshots evs1 ++ snapshots evs2.
Proof. unfold snapshots. apply omap_app. Qed.

Lemma snapshots_rev evs : snapshots (rev evs) = rev (snapshots evs).
Proof.
  induction evs as [|ev evs IH]; [done|].
  cbn [rev]. rewrite snapshots_app, IH.
  destruct ev; cbn; by rewrite ?app_nil_r.
Qed.

(** What one execution of [capture_frame] does, however it ends. *)
Lemma capture_frame_steps E blink camera output_dir name w r w' :
  capture_frame E blink camera output_dir name w = (r, w') →
  (∀ path, path ≠ frame_path E output_dir w → fs w' !! path = fs w !! path) ∧
  (clock w < clock w' ≤ clock w + 4)%nat ∧
  ∃ evs, trace w' = evs ++ trace w ∧ snapshots evs = [camera] ∧
         (count_events is_refresh evs ≤ 1)%nat.
Proof.
  unfold capture_frame. run. fold (frame_path E output_dir w).
  repeat split_reply.
  all: intros [= <- <-]; cbn.
  all: split; [intros path Hpath; by rewrite ?lookup_insert_ne|].
  all: split; [lia|].
  all: exists_added; split; [reflexivity|cbn; lia].
Qed.

(** X6.  The footprint of one capture.  However it ends, [capture_frame] asks
    its own camera for exactly one snapshot, makes between one and four
    calls, and can change the file system at one path only: the frame path
    computed from the time stamp taken before the snapshot was triggered. *)
Theorem capture_frame_footprint E blink camera output_dir name w r w' :
  capture_frame E blink camera output_dir name w = (r, w') →
  (∀ path, path ≠ frame_path E output_dir w → fs w' !! path = fs w !! path) ∧
  (clock w < clock w' ≤ clock w + 4)%nat ∧
  ∃ evs, trace w' = evs ++ trace w ∧ snapshots evs = [camera].
Proof.
  intros Hrun.
  destruct (capture_frame_steps _ _ _ _ _ _ _ _ Hrun)
    as (Hframe & Hclock & evs & Ht & Hsnap & _).
  repeat split; try done; try lia. by exists evs.
Qed.

Lemma capture_frame_footprint_witness :
  let run := capture_frame Sample.env Sample.blink0 Sample.front
               "frames/front" "front" Sample.world_prepared in
  fs run.2 !! "frames/front/20231231_235959.jpg" = Some (File "JFIF") ∧
  snapshots (trace run.2) = [Sample.front].
Proof.
  intros run.
  destruct (capture_frame_footprint Sample.env Sample.blink0
              Sample.front "frames/front" "front" Sample.world_prepared
              run.1 run.2) as (Hkeep & _ & evs & Ht & Hsnap).
  - apply surjective_pairing.
  - split.
    + rewrite Hkeep; [vm_compute; reflexivity|].
      intros H. vm_compute in H. discriminate H.
    + rewrite Ht. change (trace Sample.world_prepared) with (@nil Event).
      by rewrite app_nil_r.
Defined.

(** What one cycle does, however it ends. *)
Lemma capture_cycle_steps E blink frames_dir cams w r w' :
  capture_cycle E blink frames_dir cams w = (r, w') →
  ∃ evs,
    trace w' = evs ++ trace w ∧
    snapshots (rev evs) `prefix_of` cams.*2 ∧
    (r = Returns tt → snapshots (rev evs) = cams.*2) ∧
    (count_events is_refresh evs ≤ length cams)%nat ∧
    r ≠ OutOfFuel.
Proof.
  revert w. induction cams as [|[name camera] cams IH]; intros w.
  - intros [= <- <-]. exists []. by repeat split.
  - cbn. unfold bind at 1, try_except, bind.
    pose proof (capture_frame_terminates E blink camera
                  (joinpath frames_dir name) name w) as Hterm.
    destruct (capture_frame _ _ _ _ _ w) as [[b|e|] w1] eqn:Hframe;
      [| |done];
      apply capture_frame_steps in Hframe
        as (_ & _ & evs1 & Ht1 & Hsnap1 & Hr1); cbn.
    + intros Hrest.
      destruct (IH _ Hrest) as (evs2 & Ht2 & Hpre & Hall & Hr2 & Hfuel).
      exists (evs2 ++ evs1). split; [by rewrite Ht2, Ht1, app_assoc|].
      rewrite rev_app_distr, snapshots_app, snapshots_rev, Hsnap1. cbn.
      split; [by apply prefix_cons|].
      split; [intros Hr; by rewrite Hall|].
      split; [rewrite count_events_app; lia|done].
    + destruct (is_Exception e); cbn.
      * intros Hrest.
        destruct (IH _ Hrest) as (evs2 & Ht2 & Hpre & Hall & Hr2 & Hfuel).
        cbn in Ht2.
        exists (evs2 ++ capture_error name e :: evs1).
        split; [by rewrite Ht2, Ht1, <- app_assoc|].
        rewrite rev_app_distr, snapshots_app. cbn [rev].
        rewrite snapshots_app, snapshots_rev, Hsnap1. cbn.
        split; [by apply prefix_cons|].
        split; [intros Hr; by rewrite Hall|].
        split; [|done].
        rewrite count_events_app.
        change (capture_error name e :: evs1)
          with ([capture_error name e] ++ evs1).
        rewrite count_events_app. cbn. lia.
      * intros [= <- <-]. exists evs1. split; [done|].
        rewrite snapshots_rev, Hsnap1. cbn.
        split; [apply prefix_cons, prefix_nil|].
        split; [done|]. split; [lia|done].
Qed.

(** X9.  One attempt per camera, in discovery order.  The snapshot requests
    of a cycle, in the order in which they were made, are the cameras of the
    resolved set from the first one on, without gaps or repetitions; and when
    the cycle returns, which it does whatever exceptions of class
    [Exception] the captures raised, every camera of the set has had its
    request. *)
Theorem every_camera_attempted E blink frames_dir cams w r w' :
  capture_cycle E blink frames_dir cams w = (r, w') →
  ∃ evs,
    trace w' = evs ++ trace w ∧
    snapshots (rev evs) `prefix_of` cams.*2 ∧
    (r = Returns tt → snapshots (rev evs) = cams.*2).
Proof.
  intros Hrun.
  destruct (capture_cycle_steps _ _ _ _ _ _ _ Hrun)
    as (evs & Ht & Hpre & Hall & _).
  by exists evs.
Qed.

Lemma every_camera_attempted_witness :
  ∃ evs,
    trace (capture_cycle Sample.env_snap_timeout Sample.blink0 "frames"
             [("front", Sample.front); ("back", Sample.back)]
             Sample.world_prepared).2 = evs ++ [] ∧
    snapshots (rev evs) = [Sample.front; Sample.back].
Proof.
  destruct (every_camera_attempted Sample.env_snap_timeout Sample.blink0
              "frames" [("front", Sample.front); ("back", Sample.back)]
              Sample.world_prepared (Returns tt)
              (capture_cycle Sample.env_snap_timeout Sample.blink0 "frames"
                 [("front", Sample.front); ("back", Sample.back)]
                 Sample.world_prepared).2)
    as (evs & Ht & _ & Hall).
  - vm_compute. reflexivity.
  - exists evs. split; [exact Ht|]. by apply Hall.
Defined.

(** ** Preparing the output directories *)

(** What [make_dirs] has done, however it ends: it makes no call to the
    outside world, it leaves every entry of the disk as it was, and it can
    only fail on a regular file at the path of a directory or above it. *)
Lemma make_dirs_spec frames_dir cams w r w' :
  make_dirs frames_dir cams w = (r, w') →
  clock w' = clock w ∧
  (∀ path n, fs w !! path = Some n → fs w' !! path = Some n) ∧
  r ≠ OutOfFuel ∧
  (∀ e, r = Raises e →
        e = Exception_ "FileExistsError" ∨
        e = Exception_ "NotADirectoryError") ∧
  (r = Returns tt →
   ∀ name camera, (name, camera) ∈ cams →
                  fs w' !! joinpath frames_dir name = Some Dir) ∧
  ((∀ name camera, (name, camera) ∈ cams →
                   fs w !! joinpath frames_dir name = Some Dir) →
   fs w' = fs w).
Proof.
  revert w. induction cams as [|[name camera] cams IH]; intros w.
  - intros [= <- <-]. split_and!; try done.
    intros _ ?? Hin. by apply elem_of_nil in Hin.
  - cbn [make_dirs]. unfold bind at 1.
    destruct (mkdir (joinpath frames_dir name) w) as [[[]|e|] w1] eqn:Hdir;
      destruct (mkdir_spec _ _ _ _ Hdir)
        as (Hc1 & _ & Hkeep1 & Hret1 & Herr1 & Hfuel1 & Hsame1);
      [| |done].
    + destruct (Hret1 eq_refl) as [_ Hthere1].
      intros Hrest.
      destruct (IH _ Hrest) as (Hc & Hkeep & Hfuel & Herr & Hret & Hsame).
      split_and!; try done.
      * congruence.
      * intros path n Hp. by apply Hkeep, Hkeep1.
      * intros Hr n c [[= -> ->]|Hin]%elem_of_cons;
          [by apply Hkeep|by eapply Hret].
      * intros Hthere.
        destruct (Hsame1 (Hthere name camera ltac:(by left))) as [_ Hfs1].
        rewrite <- Hfs1. apply Hsame. intros n c Hin. rewrite Hfs1.
        apply (Hthere n c). by right.
    + intros [= <- <-]. split_and!; try done.
      * intros e' [= <-].
        destruct (Herr1 e eq_refl) as [_ [[-> _]|[-> _]]]; [by left|by right].
      * intros Hthere.
        by destruct (Hsame1 (Hthere name camera ltac:(by left))) as [[=] _].
Qed.

(** What [make_dirs] has done when it returns. *)
Lemma make_dirs_returns frames_dir cams w w' :
  make_dirs frames_dir cams w = (Returns tt, w') →
  (∀ name camera, (name, camera) ∈ cams →
                  fs w' !! joinpath frames_dir name = Some Dir) ∧
  (∀ path n, fs w !! path = Some n → fs w' !! path = Some n) ∧
  clock w' = clock w ∧
  ((∀ name camera, (name, camera) ∈ cams →
                   fs w !! joinpath frames_dir name = Some Dir) →
   fs w' = fs w).
Proof.
  intros Hrun.
  destruct (make_dirs_spec _ _ _ _ _ Hrun) as (Hc & Hkeep & _ & _ & Hret & Hsame).
  split_and!; try done. by apply Hret.
Qed.

(** X7.  Directory preparation is idempotent and never destroys anything.
    When [make_dirs] returns, every camera of the set has its directory,
    every entry that was on disk before is still there unchanged, and no call
    was made to the outside world; if all the directories existed already the
    file system is exactly as it was. *)
Theorem make_dirs_ensures frames_dir cams w w' :
  make_dirs frames_dir cams w = (Returns tt, w') →
  (∀ name camera, (name, camera) ∈ cams →
                  fs w' !! joinpath frames_dir name = Some Dir) ∧
  (∀ path n, fs w !! path = Some n → fs w' !! path = Some n) ∧
  clock w' = clock w ∧
  ((∀ name camera, (name, camera) ∈ cams →
                   fs w !! joinpath frames_dir name = Some Dir) →
   fs w' = fs w).
Proof. apply make_dirs_returns. Qed.

Lemma make_dirs_ensures_witness :
  let run := make_dirs "frames"
               [("front", Sample.front); ("back", Sample.back)]
               Sample.world_prepared in
  run.1 = Returns tt ∧ fs run.2 = fs Sample.world_prepared.
Proof.
  intros run. split; [vm_compute; reflexivity|].
  destruct (make_dirs_ensures "frames"
              [("front", Sample.front); ("back", Sample.back)]
              Sample.world_prepared run.2) as (_ & _ & _ & Hsame).
  - vm_compute. reflexivity.
  - apply Hsame. intros name camera Hin.
    apply elem_of_cons in Hin as [[= -> ->]|Hin]; [vm_compute; reflexivity|].
    apply elem_of_cons in Hin as [[= -> ->]|Hin]; [vm_compute; reflexivity|].
    by apply elem_of_nil in Hin.
Defined.

(** A regular file at the path of a directory makes [make_dirs] fail. *)
Lemma make_dirs_file_in_the_way frames_dir cams w name camera content :
  (name, camera) ∈ cams →
  fs w !! joinpath frames_dir name = Some (File content) →
  ∃ e w',
    make_dirs frames_dir cams w = (Raises e, w') ∧
    (e = Exception_ "FileExistsError" ∨ e = Exception_ "NotADirectoryError") ∧
    clock w' = clock w ∧
    fs w' !! joinpath frames_dir name = Some (File content).
Proof.
  intros Hin Hfile.
  destruct (make_dirs frames_dir cams w) as [r w'] eqn:Hrun.
  destruct (make_dirs_spec _ _ _ _ _ Hrun)
    as (Hc & Hkeep & Hfuel & Herr & Hret & _).
  destruct r as [[]|e|]; [| |done].
  - pose proof (Hret eq_refl _ _ Hin) as Hd. rewrite (Hkeep _ _ Hfile) in Hd.
    discriminate Hd.
  - exists e, w'. split_and!; [done|by apply Herr|done|by apply Hkeep].
Qed.

(** ** The collector *)

Lemma resolve_cameras_subseteq camera_filter (cams : list (string * Camera)) :
  resolve_cameras camera_filter cams ⊆ cams.
Proof.
  destruct camera_filter as [[|n ns]|]; cbn; try done.
  intros kv Hkv. by apply elem_of_filter_cameras in Hkv as [? _].
Qed.

(** X8.  A regular file where an output directory should go.  Directory
    preparation is outside every handler of [run_collector]: when the path of
    the directory of one of the resolved cameras is taken by a regular file,
    the program ends with the error of [mkdir] ([FileExistsError], or
    [NotADirectoryError] when the directory of an earlier camera lies below
    that file) and exit status 1, after authentication and before anything
    is asked of a camera; the file is left as it is. *)
Theorem blocked_directory_aborts
    E fuel interval camera_filter frames_dir credentials_file once
    w blink w1 name camera content :
  authenticate E credentials_file w = (Returns blink, w1) →
  available blink = true →
  (name, camera) ∈ resolve_cameras camera_filter (cameras blink) →
  fs w1 !! joinpath frames_dir name = Some (File content) →
  ∃ e w',
    run_collector E fuel interval camera_filter frames_dir credentials_file
      once w = (Raises e, w') ∧
    (e = Exception_ "FileExistsError" ∨ e = Exception_ "NotADirectoryError") ∧
    exit_status (Raises e) = Some 1 ∧
    clock w' = clock w1 ∧
    fs w' !! joinpath frames_dir name = Some (File content).
Proof.
  intros Hauth Havail Hin Hfile.
  unfold run_collector. unfold bind at 1. rewrite Hauth, Havail. cbn [negb].
  destruct (cameras blink) as [|cam cams] eqn:Hcams.
  { apply resolve_cameras_subseteq in Hin. by apply elem_of_nil in Hin. }
  unfold bind at 1. unfold log at 1, emit.
  set (w2 := {| clock := clock w1 |}).
  destruct (make_dirs_file_in_the_way frames_dir
              (resolve_cameras camera_filter (cam :: cams)) w2
              name camera content Hin Hfile)
    as (e & w3 & Hdirs & He & Hclock & Hkeep).
  exists e, w3.
  destruct (resolve_cameras camera_filter (cam :: cams)) as [|c cs] eqn:Hres;
    [by apply elem_of_nil in Hin|].
  assert (Hgo : (make_dirs frames_dir (c :: cs);;;
     log INFO "Starting capture: %d camera(s), interval=%ds%s"
       [ArgZ (Z.of_nat (length (c :: cs))); ArgZ interval;
        ArgS (if once then " [single shot]" else "")];;;
     try_except (collector_loop E fuel blink interval frames_dir (c :: cs) once)
       (λ e, match e with
             | KeyboardInterrupt => Some (log INFO "Stopped by user." [])
             | _ => None
             end)) w2 = (Raises e, w3)).
  { unfold bind at 1. by rewrite Hdirs. }
  destruct (filter_given camera_filter); rewrite Hgo;
    (split_and!; [done|done| |done|done]);
    by destruct He as [-> | ->].
Qed.

Lemma blocked_directory_aborts_witness :
  (run_collector Sample.env 3 600 None "frames" ".credentials.json" false
     Sample.world_blocked).1 = Raises (Exception_ "FileExistsError").
Proof.
  edestruct (blocked_directory_aborts Sample.env 3 600 None "frames"
               ".credentials.json" false Sample.world_blocked)
    as (e & w' & Hrun & _).
  - vm_compute. reflexivity.
  - reflexivity.
  - cbn. right. left.
  - vm_compute. reflexivity.
  - rewrite Hrun. vm_compute in Hrun. by injection Hrun as <- _.
Defined.

(** The steady-state loop has no way of its own to return. *)
Lemma collector_loop_never_returns E fuel blink interval frames_dir cams w :
  (collector_loop E fuel blink interval frames_dir cams false w).1
  ≠ Returns tt.
Proof.
  revert w. induction fuel as [|fuel IH]; intros w; [done|].
  cbn [collector_loop]. unfold bind at 1.
  destruct (refresh E blink w) as [[[]|e|] w1]; [|done..].
  unfold bind at 1.
  destruct (capture_cycle _ _ _ _ w1) as [[[]|e|] w2]; [|done..].
  unfold bind at 1. unfold log at 1, emit. unfold bind at 1.
  destruct (sleep E interval _) as [[[]|e|] w3]; [|done..].
  apply IH.
Qed.

(** X10.  Without the single-shot flag the collector never stops by itself.
    Whatever the outside world does and however long it runs, when
    [run_collector] returns normally the last entry of its history is either
    the error of an early stop (no capture was made) or the line that says
    it was stopped by the user. *)
Theorem steady_state_stops_only_on_interrupt
    E fuel interval camera_filter frames_dir credentials_file w w' :
  run_collector E fuel interval camera_filter frames_dir credentials_file
    false w = (Returns tt, w') →
  head (trace w') = Some stopped_by_user ∨
  ∃ fmt args, head (trace w') = Some (Log ERROR fmt args None) ∧
              count_events is_capture_step (trace w')
              = count_events is_capture_step (trace w).
Proof.
  unfold run_collector. unfold bind at 1.
  destruct (authenticate E credentials_file w) as [[blink|e|] w1] eqn:Hauth;
    [|discriminate..].
  destruct (authenticate_steps E _ _ _ _ Hauth)
    as (evs1 & Ht1 & Hquiet & _).
  assert (Hcount : count_events is_capture_step (trace w1)
                   = count_events is_capture_step (trace w)).
  { rewrite Ht1, count_events_app.
    assert (count_events is_capture_step evs1 = 0%nat) as ->; [|done].
    clear -Hquiet. induction evs1 as [|ev evs IH]; [done|].
    cbn in Hquiet. apply andb_prop in Hquiet as [Hev Hevs].
    unfold count_events in *. cbn.
    destruct (is_capture_step ev); [done|by apply IH]. }
  destruct (available blink); cbn [negb];
    [|intros [= <-]; right; by eexists _, _].
  destruct (cameras blink) as [|cam cams];
    [intros [= <-]; right; by eexists _, _|].
  unfold bind at 1. unfold log at 1, emit.
  set (w2 := {| clock := clock w1 |}).
  assert (Hd : ∀ cs,
    (make_dirs frames_dir cs;;;
     log INFO "Starting capture: %d camera(s), interval=%ds%s"
       [ArgZ (Z.of_nat (length cs)); ArgZ interval; ArgS ""];;;
     try_except (collector_loop E fuel blink interval frames_dir cs false)
       (λ e, match e with
             | KeyboardInterrupt => Some (log INFO "Stopped by user." [])
             | _ => None
             end)) w2 = (Returns tt, w') →
    head (trace w') = Some stopped_by_user).
  { intros cs. unfold bind at 1.
    destruct (make_dirs frames_dir cs w2) as [[[]|e|] w3]; [|discriminate..].
    unfold bind at 1. unfold log at 1, emit. unfold try_except.
    match goal with |- context [collector_loop ?E0 ?n ?b ?i ?f ?l ?o ?w0] =>
      pose proof (collector_loop_never_returns E0 n b i f l w0) as Hnever;
      destruct (collector_loop E0 n b i f l o w0) as [[[]|e|] w5]
    end; [done| |discriminate].
    destruct e; try discriminate. by intros [= <-]. }
  destruct (filter_given camera_filter);
    destruct (resolve_cameras camera_filter (cam :: cams)) as [|c cs];
    try (intros Hrun; left; by apply (Hd _ Hrun)).
  intros [= <-]. right. by eexists _, _.
Qed.

Lemma steady_state_stops_only_on_interrupt_witness :
  head (trace (run_collector Sample.env_snap_interrupt 3 600 None "frames"
                 ".credentials.json" false Sample.world0).2)
  = Some stopped_by_user.
Proof.
  destruct (steady_state_stops_only_on_interrupt Sample.env_snap_interrupt
              3 600 None "frames" ".credentials.json" Sample.world0
              (run_collector Sample.env_snap_interrupt 3 600 None "frames"
                 ".credentials.json" false Sample.world0).2)
    as [Hstop | (fmt & args & Herr & _)].
  - vm_compute. reflexivity.
  - exact Hstop.
  - vm_compute in Herr. discriminate Herr.
Defined.

(** X11.  The single-shot flag means one cycle.  With the flag set the loop
    body runs once whatever the bound on the number of iterations, it always
    comes to an end, and it refreshes the state at most once for the cycle
    and once per camera, asking each camera at most once, in discovery
    order. *)
Theorem single_shot_is_one_cycle E fuel blink interval frames_dir cams w :
  let run := collector_loop E (S fuel) blink interval frames_dir cams true w in
  run = collector_loop E 1 blink interval frames_dir cams true w ∧
  run.1 ≠ OutOfFuel ∧
  ∃ evs,
    trace run.2 = evs ++ trace w ∧
    (count_events is_refresh evs ≤ S (length cams))%nat ∧
    snapshots (rev evs) `prefix_of` cams.*2.
Proof.
  intros run. split; [reflexivity|].
  subst run. cbn [collector_loop]. unfold bind at 1 2 3.
  unfold refresh, interact.
  destruct (blink_refresh E (clock w) blink) as [[]|e]; cbn.
  2: { split; [done|]. exists [Refresh (Err e)]. cbn.
       repeat split; [lia|apply prefix_nil]. }
  unfold bind.
  destruct (capture_cycle _ _ _ _ _) as [r1 w1] eqn:Hcycle.
  destruct (capture_cycle_steps _ _ _ _ _ _ _ Hcycle)
    as (evs & Ht & Hpre & _ & Hrefresh & Hfuel).
  cbn in Ht.
  assert (Hevs : ∃ evs', trace w1 = evs' ++ trace w ∧
            (count_events is_refresh evs' ≤ S (length cams))%nat ∧
            snapshots (rev evs') `prefix_of` cams.*2).
  { exists (evs ++ [Refresh (Ok tt)]). split; [by rewrite Ht, <- app_assoc|].
    rewrite count_events_app, rev_app_distr. cbn. split; [lia|done]. }
  destruct r1 as [[]|e|]; cbn; by split.
Qed.

(** ** The level of the logger *)

Section LevelBlind.

Variable E : Env.

Lemma level_blind_ret {A} (a : A) : level_blind (ret a).
Proof. by intros lvl w. Qed.

Lemma level_blind_raise {A} e : level_blind (@raise A e).
Proof. by intros lvl w. Qed.

Lemma level_blind_pure {A} (r : result A) : level_blind (fun w => (r, w)).
Proof. by intros lvl w. Qed.

Lemma level_blind_emit ev : level_blind (emit ev).
Proof. by intros lvl w. Qed.

Lemma level_blind_interact {A} (ask : nat → reply A) ev :
  level_blind (interact ask ev).
Proof. by intros lvl w. Qed.

Lemma level_blind_write_fs path n : level_blind (write_fs path n).
Proof. by intros lvl w. Qed.

Lemma level_blind_bind {A B} (m : M A) (k : A → M B) :
  level_blind m → (∀ a, level_blind (k a)) → level_blind (x <- m ;; k x).
Proof.
  intros Hm Hk lvl w. unfold bind. rewrite Hm.
  destruct (m w) as [[a|e|] w1]; cbn; [apply Hk|done..].
Qed.

Lemma level_blind_try {A} (body : M A) handler :
  level_blind body → (∀ e h, handler e = Some h → level_blind h) →
  level_blind (try_except body handler).
Proof.
  intros Hb Hh lvl w. unfold try_except. rewrite Hb.
  destruct (body w) as [[a|e|] w1]; cbn; [done| |done].
  destruct (handler e) as [h|] eqn:He; [by apply (Hh e h)|done].
Qed.

Ltac blind :=
  repeat first
    [ apply level_blind_ret | apply level_blind_raise | apply level_blind_emit
    | apply level_blind_interact | apply level_blind_write_fs
    | apply level_blind_pure
    | apply level_blind_bind; [|intros ?]
    | match goal with
      | |- level_blind (if ?b then _ else _) => destruct b
      | |- level_blind (match ?x with _ => _ end) => destruct x
      end ].

Lemma level_blind_get_fs path : level_blind (get_fs path).
Proof. by intros lvl w. Qed.

Lemma level_blind_make_parents dirs : level_blind (make_parents dirs).
Proof.
  induction dirs as [|d dirs IH]; cbn [make_parents]; [blind|].
  apply level_blind_bind; [apply level_blind_get_fs|].
  intros [[|content]|]; [exact IH|blind|].
  apply level_blind_bind; [blind|by intros ?].
Qed.

Lemma level_blind_mkdir path : level_blind (mkdir path).
Proof.
  unfold mkdir. apply level_blind_bind; [apply level_blind_get_fs|].
  intros [[|content]|]; [blind..|].
  apply level_blind_bind; [apply level_blind_make_parents|intros ?; blind].
Qed.

Lemma level_blind_image_to_file camera path :
  level_blind (image_to_file E camera path).
Proof.
  intros lvl w. unfold image_to_file, leave, bind, write_fs, raise, ret. cbn.
  destruct (camera_image_to_file E (clock w) camera path) as [[content|]|e];
    [done..|].
  by destruct (image_left_on_error E (clock w) camera path).
Qed.

Lemma level_blind_do_2fa blink : level_blind (_do_2fa E blink).
Proof. unfold _do_2fa, py_input, send_2fa_code, log, sys_exit. blind. Qed.

Lemma level_blind_save blink path : level_blind (save E blink path).
Proof. unfold save. blind. Qed.

Lemma level_blind_saved_login credentials_file :
  level_blind (saved_login E credentials_file).
Proof.
  unfold saved_login, Path_exists, read_text, log.
  apply level_blind_bind;
    [apply level_blind_bind; [apply level_blind_get_fs|intros n; blind]|].
  intros present. destruct present; [|blind].
  apply level_blind_bind; [blind|intros _].
  apply level_blind_bind;
    [apply level_blind_bind; [apply level_blind_get_fs|intros n; blind]|].
  intros text. apply level_blind_bind; [blind|intros creds].
  apply level_blind_try.
  - unfold start. apply level_blind_bind; [blind|intros started].
    destruct started.1; (apply level_blind_bind; [|intros ?; blind]);
      [apply level_blind_save|blind].
  - intros e h. destruct e; intros [= <-].
    apply level_blind_bind; [apply level_blind_do_2fa|intros b].
    apply level_blind_bind; [apply level_blind_save|intros ?; blind].
Qed.

Lemma level_blind_fresh_login credentials_file :
  level_blind (fresh_login E credentials_file).
Proof.
  unfold fresh_login, environ_or_input, py_input, log.
  apply level_blind_bind;
    [destruct (environ E "BLINK_USERNAME") as [[|]|]; blind|intros username].
  apply level_blind_bind;
    [destruct (environ E "BLINK_PASSWORD") as [[|]|]; blind|intros password].
  apply level_blind_bind.
  - apply level_blind_try.
    + unfold start. blind.
    + intros e h. destruct e; intros [= <-]. apply level_blind_do_2fa.
  - intros b. apply level_blind_bind; [apply level_blind_save|intros ?; blind].
Qed.

Lemma level_blind_authenticate credentials_file :
  level_blind (authenticate E credentials_file).
Proof.
  unfold authenticate.
  apply level_blind_bind; [apply level_blind_saved_login|].
  intros [b|]; [blind|apply level_blind_fresh_login].
Qed.

Lemma level_blind_capture_frame blink camera output_dir name :
  level_blind (capture_frame E blink camera output_dir name).
Proof.
  unfold capture_frame, log, snap_picture, sleep, refresh.
  apply level_blind_bind; [by intros lvl w|intros timestamp].
  do 5 (apply level_blind_bind; [blind|intros ?]).
  apply level_blind_bind; [apply level_blind_image_to_file|intros ?].
  intros lvl w.
  change (valid_frame E (relevel lvl w)) with (valid_frame E w).
  change (st_size E (relevel lvl w)) with (st_size E w).
  by destruct (valid_frame E w _).
Qed.

Lemma level_blind_make_dirs frames_dir cams :
  level_blind (make_dirs frames_dir cams).
Proof.
  induction cams as [|[name camera] cams IH]; cbn [make_dirs]; [blind|].
  apply level_blind_bind; [apply level_blind_mkdir|by intros ?].
Qed.

Lemma level_blind_capture_cycle blink frames_dir cams :
  level_blind (capture_cycle E blink frames_dir cams).
Proof.
  induction cams as [|[name camera] cams IH]; cbn [capture_cycle]; [blind|].
  apply level_blind_bind; [|by intros ?].
  apply level_blind_try.
  - apply level_blind_bind; [apply level_blind_capture_frame|intros ?; blind].
  - intros e h. destruct (is_Exception e); intros [= <-].
    unfold log_exception. blind.
Qed.

Lemma level_blind_collector_loop fuel blink interval frames_dir cams once :
  level_blind (collector_loop E fuel blink interval frames_dir cams once).
Proof.
  induction fuel as [|fuel IH]; cbn [collector_loop]; [by intros lvl w|].
  unfold refresh, sleep, log.
  apply level_blind_bind; [blind|intros ?].
  apply level_blind_bind; [apply level_blind_capture_cycle|intros ?].
  destruct once; [blind|].
  do 2 (apply level_blind_bind; [blind|intros ?]). exact IH.
Qed.

Lemma level_blind_run_collector
    fuel interval camera_filter frames_dir credentials_file once :
  level_blind (run_collector E fuel interval camera_filter frames_dir
                 credentials_file once).
Proof.
  unfold run_collector, log.
  apply level_blind_bind; [apply level_blind_authenticate|intros blink].
  destruct (negb (available blink)); [blind|].
  destruct (cameras blink) as [|cam cams]; [blind|].
  apply level_blind_bind; [blind|intros ?].
  assert (Hd : ∀ cs, level_blind
    (make_dirs frames_dir cs;;;
     emit (Log INFO "Starting capture: %d camera(s), interval=%ds%s"
       [ArgZ (Z.of_nat (length cs)); ArgZ interval;
        ArgS (if once then " [single shot]" else "")] None);;;
     try_except (collector_loop E fuel blink interval frames_dir cs once)
       (λ e, match e with
             | KeyboardInterrupt =>
                 Some (emit (Log INFO "Stopped by user." [] None))
             | _ => None
             end))).
  { intros cs. apply level_blind_bind; [apply level_blind_make_dirs|intros ?].
    apply level_blind_bind; [blind|intros ?].
    apply level_blind_try; [apply level_blind_collector_loop|].
    intros e h. destruct e; intros [= <-]. blind. }
  destruct (filter_given camera_filter);
    destruct (resolve_cameras camera_filter (cam :: cams)) as [|c cs];
    try apply Hd.
  blind.
Qed.

Lemma level_blind_asyncio_run {A} (coro : M A) :
  level_blind coro → level_blind (asyncio_run coro).
Proof.
  intros Hm lvl w. unfold asyncio_run. rewrite Hm.
  by destruct (coro w) as [[a|[| | | |[|]]|] w1].
Qed.

End LevelBlind.

(** X13.  The verbose flag changes the level of the logger and nothing else.
    Two invocations that differ in that flag only end the same way, with the
    same history of logger calls and interactions and the same file system;
    the verbose one leaves the logger at level [DEBUG]. *)
Theorem verbose_changes_only_the_level E fuel args args' w :
  arg_interval args' = arg_interval args →
  arg_cameras args' = arg_cameras args →
  arg_frames_dir args' = arg_frames_dir args →
  arg_credentials args' = arg_credentials args →
  arg_once args' = arg_once args →
  arg_verbose args = false →
  arg_verbose args' = true →
  main E fuel args' w =
  ((main E fuel args w).1, relevel DEBUG (main E fuel args w).2).
Proof.
  intros Hi Hc Hf Hcr Ho Hq Hv.
  rewrite !main_unfold. unfold entry. rewrite Hi, Hc, Hf, Hcr, Ho, Hq, Hv.
  apply (level_blind_asyncio_run _
           (level_blind_run_collector E fuel (arg_interval args)
              (arg_cameras args) (arg_frames_dir args) (arg_credentials args)
              (arg_once args)) DEBUG w).
Qed.

Lemma verbose_changes_only_the_level_witness :
  let quiet_args := {| arg_interval := 5; arg_cameras := Some ["front"];
                       arg_frames_dir := "frames";
                       arg_credentials := ".credentials.json";
                       arg_once := true; arg_verbose := false |} in
  let verbose_args := {| arg_interval := 5; arg_cameras := Some ["front"];
                         arg_frames_dir := "frames";
                         arg_credentials := ".credentials.json";
                         arg_once := true; arg_verbose := true |} in
  trace (main Sample.env 1 verbose_args Sample.world0).2
  = trace (main Sample.env 1 quiet_args Sample.world0).2.
Proof.
  intros quiet_args verbose_args.
  rewrite (verbose_changes_only_the_level Sample.env 1 quiet_args verbose_args
             Sample.world0 eq_refl eq_refl eq_refl eq_refl eq_refl eq_refl
             eq_refl).
  reflexivity.
Defined.

(** ** The camera filter *)

(** X14.  Only membership in the filter matters.  Two filters that name the
    same cameras, in whatever order and with whatever repetitions, resolve to
    the same capture set, listed in discovery order; in particular no camera
    is captured twice because it is named twice. *)
Theorem resolve_cameras_filter_order
    (names names' : list string) (cams : list (string * Camera)) :
  (∀ name, name ∈ names ↔ name ∈ names') →
  resolve_cameras (Some names) cams = resolve_cameras (Some names') cams ∧
  (NoDup cams.*1 → NoDup (resolve_cameras (Some names) cams).*1).
Proof.
  intros Hsame. split.
  - rewrite !resolve_cameras_Some.
    destruct names as [|n ns], names' as [|n' ns']; [done| | |].
    + exfalso. assert (n' ∈ []) as Hin by (apply Hsame; left).
      by apply elem_of_nil in Hin.
    + exfalso. assert (n ∈ []) as Hin by (apply Hsame; left).
      by apply elem_of_nil in Hin.
    + unfold filter_cameras. apply list_filter_iff. intros kv. apply Hsame.
  - intros Hnd. apply (sublist_NoDup _ (cams.*1)); [exact Hnd|].
    apply fmap_sublist. rewrite resolve_cameras_Some.
    destruct names; [done|apply filter_cameras_sublist].
Qed.

Lemma resolve_cameras_filter_order_witness :
  resolve_cameras (Some ["back"; "front"; "back"])
    [("front", Sample.front); ("back", Sample.back)]
  = resolve_cameras (Some ["front"; "back"])
    [("front", Sample.front); ("back", Sample.back)].
Proof.
  apply (resolve_cameras_filter_order ["back"; "front"; "back"]
           ["front"; "back"] [("front", Sample.front); ("back", Sample.back)]).
  intros name. rewrite !elem_of_cons, !elem_of_nil. tauto.
Defined.
